(** * socks5-pool: a shallow embedding of the Go sources and its properties

    The development follows the layout of the repository:
    - [GoRuntime]   : the few pieces of Go semantics the code relies on
                      (64-bit [int], slice indexing, run-time panics);
    - [GoStrings]   : [strings.TrimSpace] and [strings.ToLower];
    - [Scraper]     : [Proxy], [proxyRegex], [Scrape] (scraper.go);
    - [Pool]        : [ProxyPool] and its methods;
    - [Checker]     : [LookupGeo], [checkGoogle], [CheckProxies];
    - [Dataplane]   : [Server.handleConn], [sendReply], [parseTarget];
    - [Orchestrator]: [refreshPool] and the rotation goroutine of [main];
    - [Sample]      : concrete inputs on which the statements are run.

    Network traffic, the clock and the random source are inputs of the
    model; goroutine interleavings are schedules. *)

From Stdlib Require Import ZArith Lia String Ascii.
From stdpp Require Import base list gmap strings pretty.

Local Open Scope Z_scope.

(* ===================================================================== *)
(** ** Go run-time model *)
(* ===================================================================== *)

Module GoRuntime.

(** A Go computation either returns or panics (index out of range,
    integer division by zero, [make] with a negative size). *)
Inductive Res (A : Type) : Type :=
| Ok (a : A)
| Panicked.
Arguments Ok {A} a.
Arguments Panicked {A}.

#[export] Instance Res_ret : MRet Res := fun A a => Ok a.
#[export] Instance Res_bind : MBind Res := fun A B k r =>
  match r with
  | Ok a => k a
  | Panicked => Panicked
  end.

(** [int] is 64 bits wide on every platform the Dockerfile targets. *)
Definition MaxInt : Z := 2 ^ 63 - 1.
Definition MinInt : Z := - 2 ^ 63.

(** Two's complement wrap-around of an [int] result. *)
Definition wrap (z : Z) : Z := (z + 2 ^ 63) mod 2 ^ 64 - 2 ^ 63.

Definition int_add (a b : Z) : Z := wrap (a + b).
Definition int_mul (a b : Z) : Z := wrap (a * b).

(** Go's [%] truncates towards zero and panics on a zero divisor. *)
Definition int_rem (a b : Z) : Res Z :=
  if b =? 0 then Panicked else Ok (wrap (Z.rem a b)).

(** [len(s)] of a slice. *)
Definition len {A} (s : list A) : Z := Z.of_nat (length s).

(** [s[i]]: panics outside [0 <= i < len(s)]. *)
Definition index {A} (s : list A) (i : Z) : Res A :=
  if (i <? 0) || (len s <=? i) then Panicked
  else match s !! Z.to_nat i with
       | Some x => Ok x
       | None => Panicked
       end.

(** A slice never has more than [MaxInt] elements. *)
Definition slice_ok {A} (s : list A) : Prop := len s <= MaxInt.

End GoRuntime.

Import GoRuntime.

(* ===================================================================== *)
(** ** Package [strings] *)
(* ===================================================================== *)

(** Go strings are byte sequences, here [string] (a list of [ascii]
    bytes); text is UTF-8. *)
Module GoStrings.

Definition byte_of (n : N) : ascii := ascii_of_N n.

Definition is_ascii (c : ascii) : bool := (N_of_ascii c <? 128)%N.

(** The [asciiSpace] table: tab, line feed, vertical tab, form feed,
    carriage return, space. *)
Definition asciiSpace (c : ascii) : bool :=
  let n := N_of_ascii c in
  ((9 <=? n) && (n <=? 13) || (n =? 32))%N.

(** UTF-8 encodings of the other runes for which [unicode.IsSpace]
    holds: U+0085, U+00A0, U+1680, U+2000..U+200A, U+2028, U+2029,
    U+202F, U+205F, U+3000. *)
Definition unicode_spaces : list (list ascii) :=
  map (map byte_of)
    ([ [194; 133]; [194; 160]; [225; 154; 128] ] ++
     map (fun k => [226; 128; 128 + k]) [0; 1; 2; 3; 4; 5; 6; 7; 8; 9; 10] ++
     [ [226; 128; 168]; [226; 128; 169]; [226; 128; 175];
       [226; 129; 159]; [227; 128; 128] ])%N.

Fixpoint strip_prefix (pre s : list ascii) : option (list ascii) :=
  match pre, s with
  | [], _ => Some s
  | a :: pre', b :: s' => if Ascii.eqb a b then strip_prefix pre' s' else None
  | _ :: _, [] => None
  end.

Fixpoint strip_any (table : list (list ascii)) (s : list ascii)
  : option (list ascii) :=
  match table with
  | [] => None
  | pre :: table' =>
      match strip_prefix pre s with
      | Some r => Some r
      | None => strip_any table' s
      end
  end.

(** One white-space rune at the front of [s], if there is one; [table]
    holds the multi-byte encodings in the reading direction. *)
Definition strip_space (table : list (list ascii)) (s : list ascii)
  : option (list ascii) :=
  match s with
  | [] => None
  | c :: s' => if asciiSpace c then Some s' else strip_any table s
  end.

Fixpoint trim_front (fuel : nat) (table : list (list ascii)) (s : list ascii)
  : list ascii :=
  match fuel with
  | O => s
  | S fuel' =>
      match strip_space table s with
      | Some r => trim_front fuel' table r
      | None => s
      end
  end.

(** [strings.TrimSpace]: all leading and trailing white space removed. *)
Definition TrimSpace (s : string) : string :=
  let l := list_ascii_of_string s in
  let l1 := trim_front (length l) unicode_spaces l in
  let r1 := trim_front (length l1) (map (@rev ascii) unicode_spaces) (rev l1) in
  string_of_list_ascii (rev r1).

(** A byte that no white-space rune starts or ends with. *)
Definition plain (c : ascii) : bool := is_ascii c && negb (asciiSpace c).

Definition lower_byte (c : ascii) : ascii :=
  let n := N_of_ascii c in
  if ((65 <=? n) && (n <=? 90))%N then ascii_of_N (n + 32) else c.

(** [strings.ToLower]. An all-ASCII string is lowered byte by byte (the
    function's fast path); any other string goes through
    [strings.Map(unicode.ToLower, s)], whose Unicode tables are the
    parameter [unicode_lower]. *)
Definition ToLower (unicode_lower : string -> string) (s : string) : string :=
  let l := list_ascii_of_string s in
  if forallb is_ascii l then string_of_list_ascii (map lower_byte l)
  else unicode_lower s.

End GoStrings.

(* ===================================================================== *)
(** ** scraper.go *)
(* ===================================================================== *)

Record Proxy : Type := mkProxy {
  IP : string;
  Port : string;
  Country : string;
  City : string
}.

(** The zero value [Proxy{}]. *)
Definition Proxy_zero : Proxy := mkProxy "" "" "" "".

Definition Addr (p : Proxy) : string := (IP p ++ ":" ++ Port p)%string.

Definition Proxy_String (p : Proxy) : string :=
  ("socks5://" ++ IP p ++ ":" ++ Port p)%string.

Module Scraper.

(** [\d] of Go's regexp syntax: an ASCII decimal digit. *)
Definition is_digit (c : ascii) : bool :=
  let n := N_of_ascii c in ((48 <=? n) && (n <=? 57))%N.

(** The longest run of digits at the front of [s], and what follows. *)
Fixpoint take_digits (s : list ascii) : list ascii * list ascii :=
  match s with
  | c :: s' =>
      if is_digit c then let '(d, r) := take_digits s' in (c :: d, r)
      else ([], s)
  | [] => ([], [])
  end.

(** [\d{1,3}] followed by the literal [sep]. The byte after the group is
    no digit, so the group is the whole run of digits, one to three long. *)
Definition match_octet (sep : ascii) (s : list ascii)
  : option (list ascii * list ascii) :=
  let '(d, r) := take_digits s in
  if ((1 <=? length d) && (length d <=? 3))%nat then
    match r with
    | c :: r' => if Ascii.eqb c sep then Some (d, r') else None
    | [] => None
    end
  else None.

(** [\d+] at the end of the pattern: greedy, the whole run of digits. *)
Definition match_port (s : list ascii) : option (list ascii * list ascii) :=
  let '(d, r) := take_digits s in
  if (1 <=? length d)%nat then Some (d, r) else None.

Definition dot : ascii := "."%char.
Definition colon : ascii := ":"%char.

(** A match of [proxyRegex] anchored at the front of [s]: the two
    submatches and the length of the whole match. *)
Definition proxyRegex_at (s : list ascii)
  : option (list ascii * list ascii * nat) :=
  r0 ← GoStrings.strip_prefix (list_ascii_of_string "socks5://") s;
  '(a, r1) ← match_octet dot r0;
  '(b, r2) ← match_octet dot r1;
  '(c, r3) ← match_octet dot r2;
  '(d, r4) ← match_octet colon r3;
  '(port, r5) ← match_port r4;
  Some (a ++ dot :: b ++ dot :: c ++ dot :: d, port,
        (length s - length r5)%nat).

(** [proxyRegex.FindAllStringSubmatch(s, -1)]: the leftmost match, then
    the leftmost match after its end, and so on; [skip] counts the bytes
    of the last match still to be passed over. *)
Fixpoint find_all (skip : nat) (s : list ascii)
  : list (list ascii * list ascii) :=
  match s with
  | [] => []
  | _ :: s' =>
      match skip with
      | S k => find_all k s'
      | O =>
          match proxyRegex_at s with
          | Some (ip, port, n) => (ip, port) :: find_all (n - 1) s'
          | None => find_all 0 s'
          end
      end
  end.

Definition FindAllStringSubmatch (body : string) : list (string * string) :=
  map (fun m => (string_of_list_ascii m.1, string_of_list_ascii m.2))
      (find_all 0 (list_ascii_of_string body)).

(** The loop of [Scrape] over the matches, with its [seen] map. *)
Fixpoint collect (matches : list (string * string)) (seen : gmap string bool)
  (proxies : list Proxy) : list Proxy :=
  match matches with
  | [] => proxies
  | (m1, m2) :: rest =>
      let addr := (m1 ++ ":" ++ m2)%string in
      if default false (seen !! addr) then collect rest seen proxies
      else collect rest (<[addr := true]> seen)
             (proxies ++ [mkProxy (GoStrings.TrimSpace m1) (GoStrings.TrimSpace m2) "" ""])
  end.

(** What [http.Get] and reading the body produced. *)
Inductive HttpResult : Type :=
| GetFailed
| GetReplied (StatusCode : Z) (body : option string).

Definition StatusOK : Z := 200.

(** [Scrape]: [None] is the error return. *)
Definition Scrape (resp : HttpResult) : option (list Proxy) :=
  match resp with
  | GetFailed => None
  | GetReplied code body =>
      if negb (code =? StatusOK) then None
      else match body with
           | None => None
           | Some b => Some (collect (FindAllStringSubmatch b) ∅ [])
           end
  end.

(** The validation the specification asks for: a port that reads as a
    decimal number between 1 and 65535. *)
Definition decimal_value (s : string) : option Z :=
  let l := list_ascii_of_string s in
  if (negb (forallb is_digit l) || (length l =? 0)%nat) then None
  else Some (fold_left (fun acc c => 10 * acc + (Z.of_N (N_of_ascii c) - 48)) l 0).

Definition spec_port_valid (s : string) : bool :=
  match decimal_value s with
  | Some n => (1 <=? n) && (n <=? 65535)
  | None => false
  end.

(** A page that lists proxies the way [Proxy.String] prints them, one
    per line. *)
Fixpoint print_page (ps : list Proxy) : string :=
  match ps with
  | [] => ""
  | p :: ps' => (Proxy_String p ++ String (ascii_of_N 10) (print_page ps'))%string
  end.

(** What a match of [proxyRegex] looks like. *)
Definition regex_match_shape (ip port : list ascii) : Prop :=
  exists a b c d : list ascii,
    ip = a ++ dot :: b ++ dot :: c ++ dot :: d /\
    Forall (fun l => Forall (fun x => is_digit x = true) l /\
                     (1 <= length l <= 3)%nat) [a; b; c; d] /\
    Forall (fun x => is_digit x = true) port /\ (1 <= length port)%nat.

(** The same on the fields of a [Proxy]. *)
Definition all_digits (s : string) : Prop :=
  Forall (fun c => is_digit c = true) (list_ascii_of_string s).

Definition octet_shape (s : string) : Prop :=
  all_digits s /\ (1 <= String.length s <= 3)%nat.

Definition quad_shape (s : string) : Prop :=
  exists a b c d : string,
    s = (a ++ "." ++ b ++ "." ++ c ++ "." ++ d)%string /\
    octet_shape a /\ octet_shape b /\ octet_shape c /\ octet_shape d.

Definition port_shape (s : string) : Prop :=
  all_digits s /\ (1 <= String.length s)%nat.

(** A proxy as [Scrape] builds them: matched fields, no geo data yet. *)
Definition scraped_shape (p : Proxy) : Prop :=
  quad_shape (IP p) /\ port_shape (Port p) /\ Country p = "" /\ City p = "".

End Scraper.

(* ===================================================================== *)
(** ** The proxy pool *)
(* ===================================================================== *)

Module Pool.

(** The mutex makes every method below one atomic step on this record;
    log output is not modelled. *)
Record ProxyPool : Type := mkPool {
  proxies : list Proxy;
  current : Z
}.

Definition NewProxyPool : ProxyPool := mkPool [] 0.

Definition Update (ps : list Proxy) (p : ProxyPool) : ProxyPool :=
  mkPool ps 0.

Definition Current (p : ProxyPool) : Res (Proxy * bool) :=
  if len (proxies p) =? 0 then Ok (Proxy_zero, false)
  else px ← index (proxies p) (current p); Ok (px, true).

Definition SwitchNext (p : ProxyPool) : Res (Proxy * bool * ProxyPool) :=
  if len (proxies p) =? 0 then Ok (Proxy_zero, false, p)
  else
    c ← int_rem (int_add (current p) 1) (len (proxies p));
    px ← index (proxies p) c;
    Ok (px, true, mkPool (proxies p) c).

Definition SwitchTo (i : Z) (p : ProxyPool) : Res (Proxy * bool * ProxyPool) :=
  if (i <? 0) || (len (proxies p) <=? i) then Ok (Proxy_zero, false, p)
  else
    px ← index (proxies p) i;
    Ok (px, true, mkPool (proxies p) i).

Definition CurrentIndex (p : ProxyPool) : Z := current p.

Definition Size (p : ProxyPool) : Z := len (proxies p).

Definition All (p : ProxyPool) : list Proxy := proxies p.

(** Mutating operations, as data, to talk about sequences of calls. *)
Inductive PoolOp : Type :=
| OpUpdate (ps : list Proxy)
| OpSwitchNext
| OpSwitchTo (i : Z).

Definition apply_op (op : PoolOp) (p : ProxyPool) : Res ProxyPool :=
  match op with
  | OpUpdate ps => Ok (Update ps p)
  | OpSwitchNext => r ← SwitchNext p; Ok (snd r)
  | OpSwitchTo i => r ← SwitchTo i p; Ok (snd r)
  end.

Fixpoint run_ops (ops : list PoolOp) (p : ProxyPool) : Res ProxyPool :=
  match ops with
  | [] => Ok p
  | op :: ops' => p' ← apply_op op p; run_ops ops' p'
  end.

(** Arguments of the calls are Go values: a slice handed to [Update]
    has an [int] length. *)
Definition op_ok (op : PoolOp) : Prop :=
  match op with
  | OpUpdate ps => slice_ok ps
  | _ => True
  end.

(** States the program can be in. *)
Definition reachable (p : ProxyPool) : Prop :=
  exists ops, Forall op_ok ops /\ run_ops ops NewProxyPool = Ok p.

(** [SwitchNext] called [n] times in a row. *)
Fixpoint SwitchNext_times (n : nat) (p : ProxyPool) : Res ProxyPool :=
  match n with
  | O => Ok p
  | S n' => r ← SwitchNext p; SwitchNext_times n' (snd r)
  end.

(** The invariant of section 3 of the specification. *)
Definition pool_inv (p : ProxyPool) : Prop :=
  slice_ok (proxies p) /\
  (0 < Size p -> 0 <= current p < Size p).

End Pool.

(* ===================================================================== *)
(** ** The checker *)
(* ===================================================================== *)

Module Checker.

(** Blocked countries: China mainland and Hong Kong. *)
Definition blockedCountries : gmap string bool :=
  <["china" := true]> (<["hong kong" := true]> ∅).

(** [m[k]] on a [map[string]bool]: [false] for an absent key. *)
Definition map_get (m : gmap string bool) (k : string) : bool :=
  default false (m !! k).

Definition CR : ascii := ascii_of_N 13.
Definition LF : ascii := ascii_of_N 10.
Definition CRLF : string := String CR (String LF EmptyString).

(** *** LookupGeo *)

(** What the connection to ip-api.com did: the dial failed, the read
    failed, or the read returned [data] ([n = len data], at most 1024). *)
Inductive GeoNet : Type :=
| GeoDialFailed
| GeoReadFailed
| GeoRead (data : string).

(** The first loop: the text after the first blank line, when there is
    one. *)
Fixpoint after_header (body : list ascii) : option (list ascii) :=
  match body with
  | [] => None
  | _ :: body' =>
      match GoStrings.strip_prefix [CR; LF; CR; LF] body with
      | Some rest => Some rest
      | None => after_header body'
      end
  end.

(** The second loop: the text before and after the first comma. *)
Fixpoint cut_comma (body : list ascii) : option (list ascii * list ascii) :=
  match body with
  | [] => None
  | c :: body' =>
      if Ascii.eqb c ","%char then Some ([], body')
      else match cut_comma body' with
           | Some (l, r) => Some (c :: l, r)
           | None => None
           end
  end.

Definition LookupGeo (net : GeoNet) : string * string :=
  match net with
  | GeoDialFailed => ("Unknown", "")
  | GeoReadFailed => ("Unknown", "")
  | GeoRead data =>
      if (String.length data =? 0)%nat then ("Unknown", "")
      else
        let body := list_ascii_of_string data in
        let body := default body (after_header body) in
        match cut_comma body with
        | Some (l, r) => (string_of_list_ascii l, string_of_list_ascii r)
        | None => (string_of_list_ascii body, "")
        end
  end.

(** *** checkGoogle *)

(** What the connection through the candidate did, call by call. A read
    is [None] on error, else the bytes received. *)
Record ProbeNet : Type := mkProbeNet {
  dial_ok : bool;
  greeting_sent : bool;
  greeting_reply : option (ascii * ascii);   (* io.ReadFull of 2 bytes *)
  connect_sent : bool;
  connect_reply : option string;             (* one Read, up to 256 bytes *)
  http_sent : bool;
  http_reply : option string                 (* one Read, up to 512 bytes *)
}.

Definition checkGoogle (net : ProbeNet) : bool :=
  if negb (dial_ok net) then false
  else if negb (greeting_sent net) then false
  else match greeting_reply net with
  | None => false
  | Some (b0, _) =>
    if negb (N_of_ascii b0 =? 5)%N then false
    else if negb (connect_sent net) then false
    else match connect_reply net with
    | None => false
    | Some resp =>
      if (String.length resp <? 2)%nat
         || negb (match String.get 1 resp with
                  | Some b => (N_of_ascii b =? 0)%N
                  | None => false
                  end) then false
      else if negb (http_sent net) then false
      else match http_reply net with
      | None => false
      | Some respBuf =>
        if (String.length respBuf <? 12)%nat then false
        else String.eqb (String.substring 0 4 respBuf) "HTTP"
      end
    end
  end.

(** *** CheckProxies *)

(** Everything outside the process: the Unicode tables behind
    [strings.ToLower] and, for the candidate at each position of the
    input, what its two network conversations do. *)
Record Net : Type := mkNet {
  unicode_lower : string -> string;
  geo_net : nat -> GeoNet;
  probe_net : nat -> ProbeNet
}.

Definition blocked (net : Net) (px : Proxy) : bool :=
  map_get blockedCountries (GoStrings.ToLower (unicode_lower net) (Country px)).

(** Where a worker goroutine stands. *)
Inductive Phase : Type :=
| PGeo       (* about to call LookupGeo *)
| PProbe     (* passed the country filter, about to call checkGoogle *)
| PAppend    (* probe succeeded, about to append under [mu] *)
| PRelease   (* deferred [<-sem] *)
| PDone.     (* deferred [wg.Done()] *)

Record Worker : Type := mkWorker {
  w_idx : nat;       (* position of the candidate in the input (ghost) *)
  w_px : Proxy;      (* the goroutine's copy [px] *)
  w_phase : Phase
}.

(** The state of one call of [CheckProxies]. [alive] carries, next to
    each proxy, the position it came from; [probed] logs the positions
    for which [checkGoogle] was called. Both additions are ghost state. *)
Record State : Type := mkState {
  todo : list (nat * Proxy);     (* rest of the [range] loop *)
  workers : list Worker;         (* goroutines started and not finished *)
  sem : nat;                     (* elements buffered in [sem] *)
  wg : nat;                      (* the WaitGroup counter *)
  alive : list (nat * Proxy);
  probed : list nat
}.

Definition init (proxies : list Proxy) : State :=
  mkState (imap (fun i p => (i, p)) proxies) [] 0 0 [] [].

(** The scheduler's choices. *)
Inductive Action : Type :=
| ASpawn               (* main: wg.Add(1); sem <- struct{}{}; go func *)
| AHandoff (k : nat)   (* the same, the send handed to worker [k] waiting in [<-sem] *)
| AWorker (k : nat).   (* worker [k] runs up to its next phase *)

Definition holds_token (w : Worker) : bool :=
  match w_phase w with
  | PDone => false
  | _ => true
  end.

Definition set_phase (ph : Phase) (w : Worker) : Worker :=
  mkWorker (w_idx w) (w_px w) ph.

(** One step of worker [w], the [k]-th live goroutine. *)
Definition worker_step (net : Net) (k : nat) (w : Worker) (s : State)
  : option State :=
  match w_phase w with
  | PGeo =>
      let '(country, city) := LookupGeo (geo_net net (w_idx w)) in
      let px := mkProxy (IP (w_px w)) (Port (w_px w))
                        (GoStrings.TrimSpace country) (GoStrings.TrimSpace city) in
      let ph := if blocked net px then PRelease else PProbe in
      Some (mkState (todo s) (<[k := mkWorker (w_idx w) px ph]> (workers s))
                    (sem s) (wg s) (alive s) (probed s))
  | PProbe =>
      let ph := if checkGoogle (probe_net net (w_idx w)) then PAppend else PRelease in
      Some (mkState (todo s) (<[k := set_phase ph w]> (workers s))
                    (sem s) (wg s) (alive s) (probed s ++ [w_idx w]))
  | PAppend =>
      Some (mkState (todo s) (<[k := set_phase PRelease w]> (workers s))
                    (sem s) (wg s) (alive s ++ [(w_idx w, w_px w)]) (probed s))
  | PRelease =>
      (* a receive from an empty channel waits *)
      match sem s with
      | O => None
      | S n => Some (mkState (todo s) (<[k := set_phase PDone w]> (workers s))
                             n (wg s) (alive s) (probed s))
      end
  | PDone =>
      (* the counter is the number of live workers (wg_counts_workers),
         so it is positive here *)
      match wg s with
      | O => None
      | S n => Some (mkState (todo s) (delete k (workers s))
                             (sem s) n (alive s) (probed s))
      end
  end.

(** One scheduling step; [None] when the chosen action cannot run.
    [cap] is the capacity of [sem]. *)
Definition exec (net : Net) (cap : Z) (a : Action) (s : State) : option State :=
  match a with
  | ASpawn =>
      match todo s with
      | (i, p) :: rest =>
          (* a send needs room in the buffer *)
          if Z.of_nat (sem s) <? cap then
            Some (mkState rest (workers s ++ [mkWorker i p PGeo])
                          (S (sem s)) (S (wg s)) (alive s) (probed s))
          else None
      | [] => None
      end
  | AHandoff k =>
      (* on an unbuffered channel a send completes when a receiver is
         already waiting *)
      match todo s, workers s !! k with
      | (i, p) :: rest, Some w =>
          match w_phase w with
          | PRelease =>
              if cap =? 0 then
                Some (mkState rest
                        (<[k := set_phase PDone w]> (workers s) ++ [mkWorker i p PGeo])
                        (sem s) (S (wg s)) (alive s) (probed s))
              else None
          | _ => None
          end
      | _, _ => None
      end
  | AWorker k =>
      match workers s !! k with
      | Some w => worker_step net k w s
      | None => None
      end
  end.

Fixpoint run (net : Net) (cap : Z) (sched : list Action) (s : State)
  : option State :=
  match sched with
  | [] => Some s
  | a :: sched' =>
      match exec net cap a s with
      | Some s' => run net cap sched' s'
      | None => None
      end
  end.

(** [wg.Wait()] returns: the loop is over and the counter is zero. *)
Definition finished (s : State) : bool :=
  match todo s, wg s with
  | [], O => true
  | _, _ => false
  end.

(** [CheckProxies] under the schedule [sched]: [Some (Ok alive)] when it
    returns [alive], [Some Panicked] when [make] panics, [None] when the
    schedule does not bring the call to its return. *)
Definition CheckProxies (net : Net) (proxies : list Proxy) (maxConcurrent : Z)
  (sched : list Action) : option (Res (list Proxy)) :=
  if maxConcurrent <? 0 then Some Panicked
  else
    match run net maxConcurrent sched (init proxies) with
    | Some s => if finished s then Some (Ok (map snd (alive s))) else None
    | None => None
    end.

(** What one candidate's pipeline yields when run on its own. *)
Definition verify (net : Net) (i : nat) (p : Proxy) : option Proxy :=
  let '(country, city) := LookupGeo (geo_net net i) in
  let px := mkProxy (IP p) (Port p)
                    (GoStrings.TrimSpace country) (GoStrings.TrimSpace city) in
  if blocked net px then None
  else if checkGoogle (probe_net net i) then Some px else None.

(** The candidates that pass, in input order. *)
Definition passing_in_order (net : Net) (proxies : list Proxy) : list Proxy :=
  omap (fun ip => verify net ip.1 ip.2) (imap (fun i p => (i, p)) proxies).

(** The country looked up for the candidate at position [i], trimmed and
    lowercased. *)
Definition country_key (net : Net) (i : nat) : string :=
  GoStrings.ToLower (unicode_lower net)
    (GoStrings.TrimSpace (LookupGeo (geo_net net i)).1).

Definition is_blocked (net : Net) (i : nat) : bool :=
  map_get blockedCountries (country_key net i).

(** *** Bookkeeping for the proofs *)

(** What worker [w] is still going to append. *)
Definition pending (net : Net) (w : Worker) : list Proxy :=
  match w_phase w with
  | PGeo => option_list (verify net (w_idx w) (w_px w))
  | PProbe => if checkGoogle (probe_net net (w_idx w)) then [w_px w] else []
  | PAppend => [w_px w]
  | PRelease => []
  | PDone => []
  end.

(** Workers that have sent to [sem] and not yet received from it. *)
Fixpoint tokens (ws : list Worker) : nat :=
  match ws with
  | [] => O
  | w :: ws' => ((if holds_token w then 1 else 0) + tokens ws')%nat
  end.

(** The counters count what they are meant to count. *)
Definition counts_ok (s : State) : Prop :=
  wg s = length (workers s) /\ sem s = tokens (workers s).

(** Workers that got past the country filter. *)
Definition past_filter (w : Worker) : bool :=
  match w_phase w with
  | PProbe => true
  | PAppend => true
  | _ => false
  end.

(** No candidate of a blocked country was probed, appended, or let
    through the filter. *)
Definition filter_respected (net : Net) (s : State) : Prop :=
  Forall (fun i => is_blocked net i = false) (probed s) /\
  Forall (fun ip : nat * Proxy => is_blocked net ip.1 = false) (alive s) /\
  Forall (fun w => past_filter w = true -> is_blocked net (w_idx w) = false)
         (workers s).

(** Appended already, to be appended by a live worker, still to start. *)
Definition content (net : Net) (s : State) : list Proxy :=
  map snd (alive s) ++ flat_map (pending net) (workers s) ++
  omap (fun ip => verify net ip.1 ip.2) (todo s).

(** The schedule that lets every worker finish before the next starts. *)
Definition worker_steps (net : Net) (i : nat) (p : Proxy) : nat :=
  let '(country, city) := LookupGeo (geo_net net i) in
  let px := mkProxy (IP p) (Port p)
                    (GoStrings.TrimSpace country) (GoStrings.TrimSpace city) in
  if blocked net px then 3%nat
  else if checkGoogle (probe_net net i) then 5%nat else 4%nat.

Definition sequential (net : Net) (todo : list (nat * Proxy)) : list Action :=
  flat_map (fun ip => ASpawn :: repeat (AWorker 0) (worker_steps net ip.1 ip.2)) todo.

(** Steps a worker in a given phase can still take, at most. *)
Definition phase_rank (ph : Phase) : nat :=
  match ph with
  | PGeo => 5
  | PProbe => 4
  | PAppend => 3
  | PRelease => 2
  | PDone => 1
  end.

Fixpoint ranks (ws : list Worker) : nat :=
  match ws with
  | [] => O
  | w :: ws' => (phase_rank (w_phase w) + ranks ws')%nat
  end.

(** A bound on the steps a call can still take. *)
Definition steps_left (s : State) : nat :=
  (6 * length (todo s) + ranks (workers s))%nat.

(** Candidates whose probe is done, may still come, or has not been
    decided yet, by position. *)
Definition awaiting_probe (w : Worker) : list nat :=
  match w_phase w with
  | PGeo => [w_idx w]
  | PProbe => [w_idx w]
  | _ => []
  end.

Definition ledger (s : State) : list nat :=
  probed s ++ flat_map awaiting_probe (workers s) ++ map fst (todo s).

End Checker.

(* ===================================================================== *)
(** ** The SOCKS5 server *)
(* ===================================================================== *)

Module Dataplane.
Import Pool.

Definition socks5Version : Z := 5.
Definition cmdConnect : Z := 1.
Definition atypIPv4 : Z := 1.
Definition atypDomain : Z := 3.
Definition atypIPv6 : Z := 4.

(** One [conn.Read(buf)]: an error, or the bytes received (values
    0..255, [n = len data], at most 256). *)
Inductive ReadResult : Type :=
| ReadErr
| ReadOk (data : list Z).

Inductive PoolCall : Type :=
| CallCurrent
| CallSwitchNext.

(** What a handler does, as seen from outside. [EvPool] records a call
    on the pool, the pool's size at that call and what the call
    returned; [EvDial] a call of [dialViaSOCKS5] and whether it returned
    a connection; [EvRelay] the copying between the two connections;
    [EvClose] a [Close()] of the client connection and [EvCloseRemote]
    one of the connection to the upstream. *)
Inductive Event : Type :=
| EvWrite (data : list Z)
| EvPool (call : PoolCall) (size : Z) (upstream : Proxy) (ok : bool)
| EvDial (upstream : Proxy) (target : string) (ok : bool)
| EvRelay
| EvCloseRemote
| EvClose.

(** Everything outside the handler: the two reads from the client, the
    outcome of each upstream dial, [net.IP.String] for 16-byte addresses,
    and what other goroutines do to the pool just before the handler's
    pool call of each attempt. *)
Record Net : Type := mkNet {
  greeting : ReadResult;
  request : ReadResult;
  dial : nat -> Proxy -> string -> bool;
  ipv6_String : list Z -> string;
  others : nat -> list PoolOp
}.

(** [s[lo:hi]] *)
Definition slice {A} (s : list A) (lo hi : Z) : Res (list A) :=
  if (lo <? 0) || (hi <? lo) || (len s <? hi) then Panicked
  else Ok (take (Z.to_nat (hi - lo)) (drop (Z.to_nat lo) s)).

Definition byte_string (bs : list Z) : string :=
  string_of_list_ascii (map (fun b => ascii_of_N (Z.to_N b)) bs).

(** [sendReply]: ver, status, rsv, atyp(ipv4), addr(0.0.0.0), port(0). *)
Definition sendReply (status : Z) : Event :=
  EvWrite [socks5Version; status; 0; atypIPv4; 0; 0; 0; 0; 0; 0].

(** [parseTarget]: [Ok None] is the error return. *)
Definition parseTarget (net : Net) (buf : list Z) : Res (option string) :=
  if len buf <? 7 then Ok None
  else
    atyp ← index buf 3;
    r ← (if atyp =? atypIPv4 then
           if len buf <? 10 then Ok None
           else
             b4 ← index buf 4; b5 ← index buf 5;
             b6 ← index buf 6; b7 ← index buf 7;
             Ok (Some ((pretty b4 ++ "." ++ pretty b5 ++ "." ++
                        pretty b6 ++ "." ++ pretty b7)%string, 8))
         else if atyp =? atypDomain then
           domainLen ← index buf 4;
           if len buf <? 5 + domainLen + 2 then Ok None
           else
             host ← slice buf 5 (5 + domainLen);
             Ok (Some (byte_string host, 5 + domainLen))
         else if atyp =? atypIPv6 then
           if len buf <? 22 then Ok None
           else
             ip ← slice buf 4 20;
             Ok (Some (ipv6_String net ip, 20))
         else Ok None);
    match r with
    | None => Ok None
    | Some (host, portOffset) =>
        hi ← index buf portOffset;
        lo ← index buf (portOffset + 1);
        let port := Z.lor (Z.shiftl hi 8) lo in
        Ok (Some (host ++ ":" ++ pretty port)%string)
    end.

(** Steps 1 and 2 of [handleConn] and the parse of the target: what was
    written to the client, and the target when the request is a CONNECT
    that parses. *)
Definition accept_request (net : Net) : Res (list Event * option string) :=
  match greeting net with
  | ReadErr => Ok ([], None)
  | ReadOk g =>
      if len g <? 2 then Ok ([], None)
      else
        b0 ← index g 0;
        if negb (b0 =? socks5Version) then Ok ([], None)
        else
          let hello := EvWrite [socks5Version; 0] in
          match request net with
          | ReadErr => Ok ([hello; sendReply 7], None)
          | ReadOk rq =>
              if len rq <? 7 then Ok ([hello; sendReply 7], None)
              else
                b1 ← index rq 1;
                if negb (b1 =? cmdConnect) then Ok ([hello; sendReply 7], None)
                else
                  t ← parseTarget net rq;
                  match t with
                  | None => Ok ([hello; sendReply 4], None)
                  | Some targetAddr => Ok ([hello], Some targetAddr)
                  end
          end
  end.

(** [relay(conn, remote)]: the copying in both directions until one of
    them ends, then the two deferred calls, last deferred first:
    [right.Close()] on the upstream connection and [left.Close()] on the
    client connection. *)
Definition relay : list Event := [EvRelay; EvCloseRemote; EvClose].

Definition maxRetries : nat := 3.

(** Step 3, the loop [for i := 0; i < maxRetries; i++]; [left] is
    [maxRetries - i]. *)
Fixpoint upstream_attempts (net : Net) (targetAddr : string) (left : nat)
  (i : nat) (p : ProxyPool) : Res (list Event * ProxyPool) :=
  match left with
  | O => Ok ([sendReply 1], p)
  | S left' =>
      p1 ← run_ops (others net i) p;
      r ← (if (i =? 0)%nat
           then c ← Current p1; Ok (c.1, c.2, p1)
           else SwitchNext p1);
      let '(upstream, ok, p2) := r in
      let call := if (i =? 0)%nat then CallCurrent else CallSwitchNext in
      if negb ok then
        Ok ([EvPool call (Size p1) upstream false; sendReply 1], p2)
      else if dial net i upstream targetAddr then
        Ok (EvPool call (Size p1) upstream true ::
            EvDial upstream targetAddr true :: sendReply 0 :: relay, p2)
      else
        rest ← upstream_attempts net targetAddr left' (S i) p2;
        Ok (EvPool call (Size p1) upstream true ::
            EvDial upstream targetAddr false :: rest.1, rest.2)
  end.

(** [handleConn]; the deferred [conn.Close()] ends every trace, also
    the one in which [relay] has closed the connection already. *)
Definition handleConn (net : Net) (p : ProxyPool) : Res (list Event * ProxyPool) :=
  a ← accept_request net;
  match a.2 with
  | None => Ok (a.1 ++ [EvClose], p)
  | Some targetAddr =>
      r ← upstream_attempts net targetAddr maxRetries 0 p;
      Ok (a.1 ++ r.1 ++ [EvClose], r.2)
  end.


Record DialObs : Type := mkDialObs {
  via : Proxy;
  target : string;
  connected : bool
}.


Definition dials (evs : list Event) : list DialObs :=
  omap (fun e => match e with
                 | EvDial px t b => Some (mkDialObs px t b)
                 | _ => None
                 end) evs.




(** A byte. *)
Definition is_byte (b : Z) : Prop := 0 <= b <= 255.

(** *** dialViaSOCKS5 *)

(** [byte(x)] of an [int]. *)
Definition to_byte (x : Z) : Z := x mod 256.

(** What [net.ParseIP(host)] found: no address ([None]), or an address
    for which [To4()] gives four bytes, or a 16-byte address. *)
Inductive IPAddr : Type :=
| IP4 (ip4 : list Z)
| IP16 (ip : list Z).

(** The library functions it calls. [Sscan_int] is
    [fmt.Sscanf(s, "%d", &port)] on [port := 0]: the number read, 0 when
    there is none. *)
Record Lib : Type := mkLib {
  SplitHostPort : string -> option (string * string);
  Sscan_int : string -> Z;
  ParseIP : string -> option IPAddr
}.

(** What the connection to the upstream does: whether the dial succeeds,
    the two bytes [io.ReadFull] gets ([None] on error), and the reply to
    the request ([None] on error, else the bytes read). *)
Record UpNet : Type := mkUpNet {
  up_dial_ok : bool;
  up_greeting : option (Z * Z);
  up_reply : option (list Z)
}.

Inductive UpEvent : Type :=
| UpWrite (data : list Z)
| UpClose
| UpClearDeadline.

Definition host_bytes (host : string) : list Z :=
  map (fun c => Z.of_N (N_of_ascii c)) (list_ascii_of_string host).

(** The connect request built for [host] and [port]. *)
Definition connect_request (lib : Lib) (host : string) (port : Z) : list Z :=
  let req := [5; 1; 0] in
  let req :=
    match ParseIP lib host with
    | Some (IP4 ip4) => (req ++ [atypIPv4]) ++ ip4
    | Some (IP16 ip) => (req ++ [atypIPv6]) ++ ip
    | None =>
        (req ++ [atypDomain; to_byte (Z.of_nat (String.length host))]) ++
        host_bytes host
    end in
  req ++ [to_byte (Z.shiftr port 8); to_byte (Z.land port 255)].

(** [dialViaSOCKS5]: whether it returns a connection, and what it did on
    the connection to the upstream. *)
Definition dialViaSOCKS5 (lib : Lib) (net : UpNet) (target : string)
  : bool * list UpEvent :=
  if negb (up_dial_ok net) then (false, [])
  else
    let hello := UpWrite [5; 1; 0] in
    match up_greeting net with
    | None => (false, [hello; UpClose])
    | Some (b0, _) =>
        if negb (b0 =? 5) then (false, [hello; UpClose])
        else
          match SplitHostPort lib target with
          | None => (false, [hello; UpClose])
          | Some (host, portStr) =>
              let port := Sscan_int lib portStr in
              let req := UpWrite (connect_request lib host port) in
              match up_reply net with
              | None => (false, [hello; req; UpClose])
              | Some resp =>
                  if (len resp <? 2) || negb (nth 1 resp 0 =? 0)
                  then (false, [hello; req; UpClose])
                  else (true, [hello; req; UpClearDeadline])
              end
          end
    end.

End Dataplane.

(* ===================================================================== *)
(** ** The orchestrator *)
(* ===================================================================== *)

Module Orchestrator.
Import Pool.

Record Config : Type := mkConfig {
  ListenAddr : string;
  StatusAddr : string;
  ScrapeURL : string;
  ScrapeInterval : Z;      (* time.Duration, nanoseconds *)
  CheckTimeout : Z;
  MaxConcurrent : Z
}.

(** [lastScrapeTime] and [nextScrapeTime], as nanoseconds; 0 is the zero
    [time.Time]. *)
Record Timing : Type := mkTiming {
  lastScrapeTime : Z;
  nextScrapeTime : Z
}.

(** The pool, the timing state, and a log of the mutating calls made on
    the pool (ghost state). *)
Record System : Type := mkSystem {
  pool : ProxyPool;
  timing : Timing;
  pool_log : list PoolOp
}.

(** The outside of one refresh cycle: what the HTTP fetch did, the
    network and the scheduling of the checks, and [time.Now()]. *)
Record Cycle : Type := mkCycle {
  http : Scraper.HttpResult;
  check_net : Checker.Net;
  check_sched : list Checker.Action;
  now : Z
}.

(** [refreshPool]: [None] when [CheckProxies] does not return under the
    cycle's schedule. *)
Definition refreshPool (cfg : Config) (cy : Cycle) (st : System)
  : option (Res System) :=
  match Scraper.Scrape (http cy) with
  | None => Some (Ok st)
  | Some proxies =>
      match Checker.CheckProxies (check_net cy) proxies (MaxConcurrent cfg)
                                 (check_sched cy) with
      | None => None
      | Some Panicked => Some Panicked
      | Some (Ok alive) =>
          Some (Ok (mkSystem (Update alive (pool st))
                             (mkTiming (now cy) (now cy + ScrapeInterval cfg))
                             (pool_log st ++ [OpUpdate alive])))
      end
  end.

(** *** The rotation goroutine *)

Definition Minute : Z := 60 * 1000000000.

(** [5*time.Minute + time.Duration(k)*time.Minute] on [int64]. *)
Definition rotation_delay (k : Z) : Z :=
  int_add (5 * Minute) (int_mul k Minute).

(** One turn of the loop as the outside sees it: the value
    [rand.Intn(5)] returned, and what other goroutines did to the pool
    during the sleep and between [Size()] and [SwitchNext()]. *)
Record Turn : Type := mkTurn {
  draw : Z;
  during_sleep : list PoolOp;
  before_switch : list PoolOp
}.

(** What one turn did: how long it slept, the size it read, whether it
    called [SwitchNext]. *)
Record Rotation : Type := mkRotation {
  delay : Z;
  size_seen : Z;
  switched : bool
}.

Definition rotate_once (t : Turn) (p : ProxyPool) : Res (Rotation * ProxyPool) :=
  let d := rotation_delay (draw t) in
  p1 ← run_ops (during_sleep t) p;
  let n := Size p1 in
  if 1 <? n then
    p2 ← run_ops (before_switch t) p1;
    r ← SwitchNext p2;
    Ok (mkRotation d n true, r.2)
  else Ok (mkRotation d n false, p1).

(** The first turns of the endless loop. *)
Fixpoint rotation_loop (turns : list Turn) (p : ProxyPool)
  : Res (list Rotation * ProxyPool) :=
  match turns with
  | [] => Ok ([], p)
  | t :: turns' =>
      r ← rotate_once t p;
      rest ← rotation_loop turns' r.2;
      Ok (r.1 :: rest.1, rest.2)
  end.

(** [rand.Intn(5)] returns a value in [0, 5); the other goroutines call
    the pool with Go values. *)
Definition turn_ok (t : Turn) : Prop :=
  0 <= draw t < 5 /\
  Forall op_ok (during_sleep t) /\ Forall op_ok (before_switch t).

End Orchestrator.

(* ===================================================================== *)
(** ** status.go and the refresh signal *)
(* ===================================================================== *)

Module Status.
Import Pool Orchestrator.

Record ProxyStatus : Type := mkProxyStatus {
  ps_Addr : string;
  ps_Country : string;
  ps_City : string;
  ps_Active : bool
}.

Record StatusData : Type := mkStatusData {
  Total : Z;
  ActiveProxy : string;
  ActiveRegion : string;
  LastScrape : string;
  NextScrape : string;
  Proxies : list ProxyStatus
}.

(** [getStatusData]. [format] is [t.In(beijingLoc).Format(layout)];
    [mid1] and [mid2] are what other goroutines do to the pool between
    the handler's calls of [All], [CurrentIndex] and [Current], each of
    which takes the lock on its own. *)
Definition getStatusData (format : Z -> string) (tm : Timing)
  (mid1 mid2 : list PoolOp) (p : ProxyPool) : Res StatusData :=
  let proxies := All p in
  p1 ← run_ops mid1 p;
  let activeIdx := CurrentIndex p1 in
  let lastStr := if lastScrapeTime tm =? 0 then ""%string
                 else format (lastScrapeTime tm) in
  let nextStr := if nextScrapeTime tm =? 0 then ""%string
                 else format (nextScrapeTime tm) in
  let ps := imap (fun i px => mkProxyStatus (Addr px) (Country px) (City px)
                                            (Z.of_nat i =? activeIdx)) proxies in
  p2 ← run_ops mid2 p1;
  '(px, ok) ← Current p2;
  let active :=
    if (ok : bool) then
      (Addr px,
       if negb (String.eqb (City px) "") then (Country px ++ ", " ++ City px)%string
       else Country px)
    else ("None"%string, "-"%string) in
  Ok (mkStatusData (len proxies) active.1 active.2 lastStr nextStr ps).

Definition StatusOK : Z := 200.
Definition StatusBadRequest : Z := 400.
Definition StatusServiceUnavailable : Z := 503.

(** The body [{"status":"msg"}]. *)
Definition json_status (msg : string) : string :=
  let q := String (ascii_of_N 34) "" in
  ("{" ++ q ++ "status" ++ q ++ ":" ++ q ++ msg ++ q ++ "}")%string.

(** [handleSwitch]: the status code and body written and the pool
    afterwards. [indexStr] is the query parameter (empty when absent),
    [Atoi] is [strconv.Atoi] with [None] for its error. *)
Definition handleSwitch (Atoi : string -> option Z) (indexStr : string)
  (p : ProxyPool) : Res (Z * string * ProxyPool) :=
  if negb (String.eqb indexStr "") then
    match Atoi indexStr with
    | None => Ok (StatusBadRequest, json_status "invalid index", p)
    | Some index =>
        '(_, ok, p') ← SwitchTo index p;
        if (ok : bool) then Ok (StatusOK, json_status "ok", p')
        else Ok (StatusBadRequest, json_status "index out of range", p')
    end
  else
    '(_, ok, p') ← SwitchNext p;
    if (ok : bool) then Ok (StatusOK, json_status "ok", p')
    else Ok (StatusServiceUnavailable, json_status "no proxies available", p').

(** [refreshChan = make(chan struct{}, 1)], as the number of elements
    buffered. [TriggerRefresh] is a [select] with a [default]: it sends
    when there is room and returns at once when there is none. *)
Definition refreshChan_cap : nat := 1.

Definition TriggerRefresh (buffered : nat) : nat :=
  if (buffered <? refreshChan_cap)%nat then S buffered else buffered.

Definition handleRefresh (buffered : nat) : Z * string * nat :=
  (StatusOK, json_status "refresh triggered", TriggerRefresh buffered).

(** Triggers and the receives of the loop in [main], interleaved.
    [signal_run] gives the number buffered and the number of manual
    refreshes begun; [None] when a receive is scheduled on an empty
    channel, where the loop would wait. *)
Inductive SigEvent : Type :=
| SigTrigger
| SigTake.

Fixpoint signal_run (evs : list SigEvent) (buffered taken : nat)
  : option (nat * nat) :=
  match evs with
  | [] => Some (buffered, taken)
  | SigTrigger :: evs' => signal_run evs' (TriggerRefresh buffered) taken
  | SigTake :: evs' =>
      match buffered with
      | O => None
      | S n => signal_run evs' n (S taken)
      end
  end.

End Status.

(* ===================================================================== *)
(** ** Sample data used to exercise the statements below *)
(* ===================================================================== *)

Module Sample.

Definition px_a : Proxy := mkProxy "10.0.0.1" "1080" "Germany" "Berlin".
Definition px_b : Proxy := mkProxy "10.0.0.2" "1081" "France" "Paris".
Definition px_c : Proxy := mkProxy "10.0.0.3" "1082" "Japan" "Tokyo".

Definition pool3 : Pool.ProxyPool := Pool.mkPool [px_a; px_b; px_c] 1.

Definition pool_ops : list Pool.PoolOp :=
  [Pool.OpSwitchNext; Pool.OpUpdate [px_a; px_b; px_c]; Pool.OpSwitchNext;
   Pool.OpSwitchNext; Pool.OpSwitchNext; Pool.OpSwitchTo 7; Pool.OpSwitchTo 1].

(** Candidates as the scraper hands them over, and a network in which
    ip-api.com places the first in Germany, the second in China, the
    third nowhere (dial failure), and every probe succeeds. *)
Definition cand_a : Proxy := mkProxy "10.0.0.1" "1080" "" "".
Definition cand_b : Proxy := mkProxy "10.0.0.2" "1081" "" "".
Definition cand_c : Proxy := mkProxy "10.0.0.3" "1082" "" "".

Definition http_200 (body : string) : string :=
  ("HTTP/1.1 200 OK" ++ Checker.CRLF ++ "Content-Type: text/plain" ++
   Checker.CRLF ++ Checker.CRLF ++ body)%string.

Definition probe_good : Checker.ProbeNet :=
  Checker.mkProbeNet true true (Some (ascii_of_N 5, ascii_of_N 0)) true
    (Some (string_of_list_ascii (map ascii_of_N [5; 0; 0; 1; 0; 0; 0; 0; 0; 0]%N)))
    true (Some (http_200 "")).

Definition net_geo : Checker.Net :=
  Checker.mkNet (fun s => s)
    (fun i => match i with
              | O => Checker.GeoRead (http_200 (String "G" (String "e" "rmany,Berlin") ++ String Checker.LF ""))
              | S O => Checker.GeoRead (http_200 " China,Beijing")
              | _ => Checker.GeoDialFailed
              end)
    (fun _ => probe_good).

Definition net_open : Checker.Net :=
  Checker.mkNet (fun s => s) (fun _ => Checker.GeoDialFailed) (fun _ => probe_good).

(** Two workers in flight; the second finishes its check first. *)
Definition sched_overtake : list Checker.Action :=
  [Checker.ASpawn; Checker.ASpawn;
   Checker.AWorker 1; Checker.AWorker 1; Checker.AWorker 1;
   Checker.AWorker 0; Checker.AWorker 0; Checker.AWorker 0;
   Checker.AWorker 0; Checker.AWorker 0;
   Checker.AWorker 0; Checker.AWorker 0].

(** One candidate after the other. *)
Definition sched_seq3 : list Checker.Action :=
  [Checker.ASpawn; Checker.AWorker 0; Checker.AWorker 0; Checker.AWorker 0;
   Checker.AWorker 0; Checker.AWorker 0;
   Checker.ASpawn; Checker.AWorker 0; Checker.AWorker 0; Checker.AWorker 0;
   Checker.ASpawn; Checker.AWorker 0; Checker.AWorker 0; Checker.AWorker 0;
   Checker.AWorker 0; Checker.AWorker 0].

(** The candidates above once verified. *)
Definition ver_a : Proxy := mkProxy "10.0.0.1" "1080" "Germany" "Berlin".
Definition ver_c : Proxy := mkProxy "10.0.0.3" "1082" "Unknown" "".
Definition unk_a : Proxy := mkProxy "10.0.0.1" "1080" "Unknown" "".
Definition unk_b : Proxy := mkProxy "10.0.0.2" "1081" "Unknown" "".

(** Where [sched_seq3] leaves the checker on the three candidates. *)
Definition state_seq3 : Checker.State :=
  Checker.mkState [] [] 0 0 [(0%nat, ver_a); (2%nat, ver_c)] [0%nat; 2%nat].

(** A client asking for example.com:80; the first two upstream dials
    fail, the third succeeds; the pool is refreshed to two proxies just
    before the second attempt. *)
Definition connect_example : list Z :=
  [5; 1; 0; 3; 11; 101; 120; 97; 109; 112; 108; 101; 46; 99; 111; 109; 0; 80].

Definition net_failover : Dataplane.Net :=
  Dataplane.mkNet (Dataplane.ReadOk [5; 1; 0]) (Dataplane.ReadOk connect_example)
    (fun i _ _ => (2 <=? i)%nat)
    (fun _ => "::")
    (fun i => match i with
              | S O => [Pool.OpUpdate [px_a; px_b]]
              | _ => []
              end).

(** The same client when every dial fails. *)
Definition net_exhaust : Dataplane.Net :=
  Dataplane.mkNet (Dataplane.ReadOk [5; 1; 0]) (Dataplane.ReadOk connect_example)
    (fun _ _ _ => false) (fun _ => "::") (fun _ => []).

Definition cfg_default : Orchestrator.Config :=
  Orchestrator.mkConfig "127.0.0.1:1080" "127.0.0.1:8080"
    "https://socks5-proxy.github.io/"
    (30 * Orchestrator.Minute) (10 * 1000000000) 20.

(** A cycle whose fetch is answered with status 503. *)
Definition cycle_503 : Orchestrator.Cycle :=
  Orchestrator.mkCycle (Scraper.GetReplied 503 (Some "busy")) net_open [] 1000.

Definition system3 : Orchestrator.System :=
  Orchestrator.mkSystem pool3 (Orchestrator.mkTiming 400 800) [].

(** Three turns of the rotation loop; during the second sleep the pool
    is refreshed to a single proxy. *)
Definition turns3 : list Orchestrator.Turn :=
  [Orchestrator.mkTurn 4 [] [];
   Orchestrator.mkTurn 0 [Pool.OpUpdate [px_c]] [];
   Orchestrator.mkTurn 2 [] []].

(** Two workers started; the second has appended and is about to
    receive from [sem], the first has not looked up its country yet. *)
Definition sched_two : list Checker.Action :=
  [Checker.ASpawn; Checker.ASpawn;
   Checker.AWorker 1; Checker.AWorker 1; Checker.AWorker 1].

Definition state_two : Checker.State :=
  Checker.mkState []
    [Checker.mkWorker 0 cand_a Checker.PGeo; Checker.mkWorker 1 unk_b Checker.PRelease]
    2 2 [(1%nat, unk_b)] [1%nat].

Definition scraped_page : string :=
  "<li>socks5://10.0.0.1:1080</li><li>socks5://10.0.0.2:70000</li><li>socks5://10.0.0.3:0</li>".

(** A cycle whose fetch returns [scraped_page]; the three candidates are
    checked one after the other in the network [net_geo]. *)
Definition cycle_200 : Orchestrator.Cycle :=
  Orchestrator.mkCycle (Scraper.GetReplied 200 (Some scraped_page))
    net_geo sched_seq3 2000.

(** Four turns of the rotation loop with nothing else touching the pool. *)
Definition turns_quiet : list Orchestrator.Turn :=
  [Orchestrator.mkTurn 4 [] []; Orchestrator.mkTurn 0 [] [];
   Orchestrator.mkTurn 2 [] []; Orchestrator.mkTurn 1 [] []].

End Sample.

(* ===================================================================== *)
(** * Properties *)
(* ===================================================================== *)

(** ** Go run-time facts *)

Lemma wrap_small (z : Z) : MinInt <= z <= MaxInt -> wrap z = z.
Proof.
  unfold wrap, MinInt, MaxInt. intros H.
  rewrite Z.mod_small by lia. lia.
Qed.

Lemma len_nonneg {A} (s : list A) : 0 <= len s.
Proof. unfold len. lia. Qed.

Lemma index_in_range {A} (s : list A) (i : Z) :
  0 <= i < len s ->
  exists x, index s i = Ok x /\ s !! Z.to_nat i = Some x.
Proof.
  intros Hi. unfold index.
  destruct (Z.ltb_spec i 0); [lia|].
  destruct (Z.leb_spec (len s) i); [lia|]. simpl.
  destruct (lookup_lt_is_Some_2 s (Z.to_nat i)) as [x Hx].
  - unfold len in Hi. lia.
  - exists x. rewrite Hx. auto.
Qed.

(** ** The proxy pool *)

(** Proves [Forall op_ok] of an explicit list of calls. *)
Ltac ops_ok :=
  repeat (apply List.Forall_cons;
          [first [exact I | unfold Pool.op_ok, slice_ok, len, MaxInt; simpl; lia]|]);
  apply List.Forall_nil.

Section PoolProps.
Import Pool.

Lemma pool_inv_new : pool_inv NewProxyPool.
Proof.
  split.
  - unfold slice_ok, len, MaxInt. simpl. lia.
  - unfold Size, len. simpl. lia.
Qed.

(** On a non-empty pool that satisfies the invariant, [SwitchNext]
    returns and moves the index one step round the ring. *)
Lemma SwitchNext_step (p : ProxyPool) :
  pool_inv p -> 0 < Size p ->
  exists px,
    SwitchNext p = Ok (px, true, mkPool (proxies p) ((current p + 1) mod Size p)) /\
    proxies p !! Z.to_nat ((current p + 1) mod Size p) = Some px.
Proof.
  intros [Hs Hc] Hn. specialize (Hc Hn). unfold Size in *.
  unfold slice_ok, MaxInt in Hs.
  unfold SwitchNext.
  destruct (Z.eqb_spec (len (proxies p)) 0) as [E|_]; [lia|].
  unfold int_rem, int_add.
  destruct (Z.eqb_spec (len (proxies p)) 0) as [E|_]; [lia|].
  rewrite (wrap_small (current p + 1)) by (unfold MinInt, MaxInt; lia).
  rewrite Z.rem_mod_nonneg by lia.
  assert (Hm : 0 <= (current p + 1) mod len (proxies p) < len (proxies p))
    by (apply Z.mod_pos_bound; lia).
  rewrite wrap_small by (unfold MinInt, MaxInt; lia).
  destruct (index_in_range (proxies p) _ Hm) as (px & Hpx & Hl).
  exists px. cbn. rewrite Hpx. cbn. auto.
Qed.

Lemma SwitchNext_empty (p : ProxyPool) :
  Size p = 0 -> SwitchNext p = Ok (Proxy_zero, false, p).
Proof.
  unfold Size, SwitchNext. intros ->. reflexivity.
Qed.

Lemma SwitchTo_in_range (i : Z) (p : ProxyPool) :
  0 <= i < Size p ->
  exists px, SwitchTo i p = Ok (px, true, mkPool (proxies p) i) /\
             proxies p !! Z.to_nat i = Some px.
Proof.
  intros Hi. unfold Size in Hi. unfold SwitchTo.
  destruct (Z.ltb_spec i 0); [lia|].
  destruct (Z.leb_spec (len (proxies p)) i); [lia|]. simpl.
  destruct (index_in_range (proxies p) i Hi) as (px & Hpx & Hl).
  exists px. rewrite Hpx. cbn. auto.
Qed.

Lemma SwitchTo_out_of_range (i : Z) (p : ProxyPool) :
  ~ (0 <= i < Size p) -> SwitchTo i p = Ok (Proxy_zero, false, p).
Proof.
  intros Hi. unfold Size in Hi. unfold SwitchTo.
  destruct (Z.ltb_spec i 0); [reflexivity|].
  destruct (Z.leb_spec (len (proxies p)) i); [reflexivity|]. lia.
Qed.

Lemma apply_op_inv (op : PoolOp) (p : ProxyPool) :
  op_ok op -> pool_inv p ->
  exists p', apply_op op p = Ok p' /\ pool_inv p'.
Proof.
  intros Hop Hinv. destruct op as [ps| |i]; simpl.
  - eexists; split; [reflexivity|]. split; [exact Hop|].
    unfold Size, Update. simpl. lia.
  - destruct (Z.eq_dec (Size p) 0) as [E|E].
    + rewrite (SwitchNext_empty p E). cbn. eauto.
    + assert (Hn : 0 < Size p) by (pose proof (len_nonneg (proxies p)); unfold Size in *; lia).
      destruct (SwitchNext_step p Hinv Hn) as (px & -> & _). cbn.
      eexists; split; [reflexivity|]. destruct Hinv as [Hs _].
      split; [exact Hs|]. unfold Size. simpl. intros _.
      apply Z.mod_pos_bound. exact Hn.
  - destruct (Z_le_dec 0 i) as [H0|H0]; [destruct (Z_lt_dec i (Size p)) as [H1|H1]|].
    + destruct (SwitchTo_in_range i p (conj H0 H1)) as (px & -> & _). cbn.
      eexists; split; [reflexivity|]. destruct Hinv as [Hs _].
      split; [exact Hs|]. unfold Size in *. simpl. lia.
    + rewrite SwitchTo_out_of_range by lia. cbn. eauto.
    + rewrite SwitchTo_out_of_range by lia. cbn. eauto.
Qed.

Lemma run_ops_inv (ops : list PoolOp) : forall p : ProxyPool,
  Forall op_ok ops -> pool_inv p ->
  exists p', run_ops ops p = Ok p' /\ pool_inv p'.
Proof.
  induction ops as [|op ops IH]; intros p Hops Hinv; simpl.
  - eauto.
  - inversion Hops as [|? ? Hop Hrest]; subst.
    destruct (apply_op_inv op p Hop Hinv) as (p1 & -> & Hinv1). cbn.
    apply IH; assumption.
Qed.

Lemma reachable_inv (p : ProxyPool) : reachable p -> pool_inv p.
Proof.
  intros (ops & Hops & Hrun).
  destruct (run_ops_inv ops NewProxyPool Hops pool_inv_new) as (p' & Hp' & Hinv).
  congruence.
Qed.

Lemma Current_spec (p : ProxyPool) :
  pool_inv p -> exists px, Current p = Ok (px, negb (Size p =? 0)).
Proof.
  intros [_ Hc]. unfold Current, Size in *.
  destruct (Z.eqb_spec (len (proxies p)) 0) as [E|E]; [eauto|].
  pose proof (len_nonneg (proxies p)).
  destruct (index_in_range (proxies p) (current p)) as (px & -> & _); [lia|].
  cbn. eauto.
Qed.

Lemma SwitchNext_spec (p : ProxyPool) :
  pool_inv p ->
  exists px p', SwitchNext p = Ok (px, negb (Size p =? 0), p') /\ pool_inv p'.
Proof.
  intros Hinv. destruct (Z.eqb_spec (Size p) 0) as [E|E].
  - rewrite (SwitchNext_empty p E). eauto.
  - assert (Hn : 0 < Size p)
      by (pose proof (len_nonneg (proxies p)); unfold Size in *; lia).
    destruct (SwitchNext_step p Hinv Hn) as (px & -> & _).
    eexists _, _. split; [reflexivity|]. destruct Hinv as [Hs _].
    split; [exact Hs|]. unfold Size. simpl. intros _.
    apply Z.mod_pos_bound. exact Hn.
Qed.

Lemma SwitchNext_times_ring (ps : list Proxy) (k : nat) : forall c : Z,
  slice_ok ps -> 0 <= c < len ps ->
  SwitchNext_times k (mkPool ps c) = Ok (mkPool ps ((c + Z.of_nat k) mod len ps)).
Proof.
  induction k as [|k IH]; intros c Hs Hc.
  - simpl. rewrite Z.add_0_r, Z.mod_small by lia. reflexivity.
  - cbn [SwitchNext_times].
    assert (Hinv : pool_inv (mkPool ps c)) by (split; [exact Hs | intros _; exact Hc]).
    assert (Hn : 0 < Size (mkPool ps c)) by (unfold Size; simpl; lia).
    destruct (SwitchNext_step _ Hinv Hn) as (px & -> & _). cbn.
    unfold Size. cbn [proxies current].
    rewrite IH; [|exact Hs|apply Z.mod_pos_bound; lia].
    f_equal. f_equal.
    rewrite Zplus_mod_idemp_l. f_equal. lia.
Qed.

(** C1: after any sequence of [Update] / [SwitchNext] / [SwitchTo] calls
    on a fresh pool, every call has returned and, whenever [Size() > 0],
    [0 <= CurrentIndex() < Size()]. *)
Theorem pool_index_in_bounds (ops : list PoolOp) :
  Forall op_ok ops ->
  exists p, run_ops ops NewProxyPool = Ok p /\
            (0 < Size p -> 0 <= CurrentIndex p < Size p).
Proof.
  intros Hops.
  destruct (run_ops_inv ops NewProxyPool Hops pool_inv_new) as (p & Hrun & _ & Hc).
  exists p. split; [exact Hrun | exact Hc].
Qed.

Lemma pool_index_in_bounds_witness :
  exists p, run_ops Sample.pool_ops NewProxyPool = Ok p /\
            (0 < Size p -> 0 <= CurrentIndex p < Size p).
Proof.
  apply (pool_index_in_bounds Sample.pool_ops).
  unfold Sample.pool_ops. ops_ok.
Defined.

(** C6: [SwitchTo(i)] with [0 <= i < Size()] returns [ok = true] and makes
    [i] the active index; for any other [i] it returns [ok = false] and
    the pool (index and proxy sequence) is what it was. *)
Theorem SwitchTo_contract (p : ProxyPool) (i : Z) :
  (0 <= i < Size p ->
   exists px p', SwitchTo i p = Ok (px, true, p') /\
                 CurrentIndex p' = i /\ proxies p' = proxies p /\
                 proxies p !! Z.to_nat i = Some px) /\
  (~ (0 <= i < Size p) ->
   exists px, SwitchTo i p = Ok (px, false, p)).
Proof.
  split.
  - intros Hi. destruct (SwitchTo_in_range i p Hi) as (px & Hsw & Hl).
    exists px, (mkPool (proxies p) i). auto.
  - intros Hi. exists Proxy_zero. apply SwitchTo_out_of_range. exact Hi.
Qed.

(** C7: on a non-empty pool, [Size()] consecutive calls of [SwitchNext]
    all return and bring the active index back to where it was. *)
Theorem SwitchNext_full_cycle (p : ProxyPool) :
  reachable p -> 0 < Size p ->
  exists p', SwitchNext_times (Z.to_nat (Size p)) p = Ok p' /\
             CurrentIndex p' = CurrentIndex p /\
             proxies p' = proxies p.
Proof.
  intros Hr Hn. destruct (reachable_inv p Hr) as [Hs Hc].
  specialize (Hc Hn). destruct p as [ps c]. unfold Size, CurrentIndex in *.
  cbn [proxies current] in *.
  rewrite SwitchNext_times_ring by assumption.
  eexists; split; [reflexivity|]. cbn [proxies current]. split; [|reflexivity].
  rewrite Z2Nat.id by lia.
  rewrite <- (Z.mul_1_l (len ps)) at 1.
  rewrite Z.mod_add by lia. apply Z.mod_small. exact Hc.
Qed.

Lemma SwitchNext_full_cycle_witness :
  exists p', SwitchNext_times (Z.to_nat (Size Sample.pool3)) Sample.pool3 = Ok p' /\
             CurrentIndex p' = CurrentIndex Sample.pool3 /\
             proxies p' = proxies Sample.pool3.
Proof.
  apply (SwitchNext_full_cycle Sample.pool3).
  - exists [OpUpdate [Sample.px_a; Sample.px_b; Sample.px_c]; OpSwitchTo 1].
    split; [ops_ok | reflexivity].
  - reflexivity.
Defined.

End PoolProps.

(** ** Package [strings] *)

Section StringProps.
Import GoStrings.

Lemma string_of_list_ascii_app (l1 l2 : list ascii) :
  string_of_list_ascii (l1 ++ l2) =
  (string_of_list_ascii l1 ++ string_of_list_ascii l2)%string.
Proof.
  induction l1 as [|c l1 IH]; simpl; [reflexivity|]. now rewrite IH.
Qed.

Lemma length_string_of_list_ascii (l : list ascii) :
  String.length (string_of_list_ascii l) = length l.
Proof.
  induction l as [|c l IH]; simpl; [reflexivity|]. now rewrite IH.
Qed.

Lemma strip_prefix_high (pre s : list ascii) (c : ascii) :
  is_ascii c = true ->
  match pre with a :: _ => is_ascii a = false | [] => False end ->
  strip_prefix pre (c :: s) = None.
Proof.
  intros Hc Hpre. destruct pre as [|a pre]; [contradiction|]. simpl.
  destruct (Ascii.eqb_spec a c) as [->|_]; [congruence|reflexivity].
Qed.

Lemma strip_any_high (table : list (list ascii)) (s : list ascii) (c : ascii) :
  is_ascii c = true ->
  Forall (fun pre => match pre with a :: _ => is_ascii a = false | [] => False end) table ->
  strip_any table (c :: s) = None.
Proof.
  intros Hc. induction 1 as [|pre table Hpre _ IH]; simpl; [reflexivity|].
  now rewrite (strip_prefix_high pre s c Hc Hpre).
Qed.

Lemma unicode_spaces_high :
  Forall (fun pre => match pre with a :: _ => is_ascii a = false | [] => False end)
         unicode_spaces.
Proof. repeat constructor. Qed.

Lemma unicode_spaces_rev_high :
  Forall (fun pre => match pre with a :: _ => is_ascii a = false | [] => False end)
         (map (@rev ascii) unicode_spaces).
Proof. repeat constructor. Qed.

Lemma trim_front_plain (table : list (list ascii)) (fuel : nat) (s : list ascii) :
  Forall (fun pre => match pre with a :: _ => is_ascii a = false | [] => False end) table ->
  Forall (fun c => plain c = true) s ->
  trim_front fuel table s = s.
Proof.
  intros Ht Hs. destruct fuel as [|fuel]; [reflexivity|]. simpl.
  destruct Hs as [|c s Hc Hs]; [reflexivity|].
  unfold plain in Hc. apply andb_true_iff in Hc as [Ha Hn].
  apply negb_true_iff in Hn. simpl. rewrite Hn.
  now rewrite (strip_any_high table s c Ha Ht).
Qed.

(** [TrimSpace] leaves a string of plain bytes alone. *)
Lemma TrimSpace_plain (l : list ascii) :
  Forall (fun c => plain c = true) l ->
  TrimSpace (string_of_list_ascii l) = string_of_list_ascii l.
Proof.
  intros Hl. unfold TrimSpace.
  rewrite list_ascii_of_string_of_list_ascii.
  rewrite (trim_front_plain _ _ l unicode_spaces_high Hl).
  rewrite (trim_front_plain _ _ (rev l) unicode_spaces_rev_high).
  - now rewrite rev_involutive.
  - apply Forall_rev. exact Hl.
Qed.

End StringProps.

(** ** scraper.go *)

Section ScraperProps.
Import GoStrings Scraper.

Lemma is_digit_plain (c : ascii) : is_digit c = true -> plain c = true.
Proof.
  unfold is_digit, plain, is_ascii, asciiSpace. intros H.
  apply andb_true_iff in H as [H1 H2].
  apply N.leb_le in H1. apply N.leb_le in H2.
  apply andb_true_iff; split.
  - apply N.ltb_lt. lia.
  - apply negb_true_iff. apply orb_false_iff; split.
    + apply andb_false_iff. right. apply N.leb_gt. lia.
    + apply N.eqb_neq. lia.
Qed.

Lemma take_digits_spec (s d r : list ascii) :
  take_digits s = (d, r) ->
  Forall (fun c => is_digit c = true) d /\ s = d ++ r.
Proof.
  revert d r. induction s as [|c s IH]; intros d r H; simpl in H.
  - inversion H; subst. split; [constructor | reflexivity].
  - destruct (is_digit c) eqn:Hc.
    + destruct (take_digits s) as [d' r'] eqn:Ht. inversion H; subst.
      destruct (IH d' r eq_refl) as [Hd ->]. split; [|reflexivity].
      constructor; assumption.
    + inversion H; subst. split; [constructor | reflexivity].
Qed.

Lemma match_octet_spec (sep : ascii) (s d r : list ascii) :
  match_octet sep s = Some (d, r) ->
  Forall (fun c => is_digit c = true) d /\ (1 <= length d <= 3)%nat /\
  s = d ++ sep :: r.
Proof.
  unfold match_octet. destruct (take_digits s) as [d' r'] eqn:Ht.
  destruct (take_digits_spec _ _ _ Ht) as [Hd ->].
  destruct ((1 <=? length d')%nat && (length d' <=? 3)%nat) eqn:Hl; [|discriminate].
  apply andb_true_iff in Hl as [H1 H2].
  apply Nat.leb_le in H1. apply Nat.leb_le in H2.
  destruct r' as [|c r'']; [discriminate|].
  destruct (Ascii.eqb_spec c sep) as [->|_]; [|discriminate].
  intros H; inversion H; subst. auto.
Qed.

Lemma match_port_spec (s d r : list ascii) :
  match_port s = Some (d, r) ->
  Forall (fun c => is_digit c = true) d /\ (1 <= length d)%nat /\ s = d ++ r.
Proof.
  unfold match_port. destruct (take_digits s) as [d' r'] eqn:Ht.
  destruct (take_digits_spec _ _ _ Ht) as [Hd ->].
  destruct (Nat.leb_spec 1 (length d')) as [Hl|Hl]; [|discriminate].
  intros Heq; inversion Heq; subst. auto.
Qed.

Lemma proxyRegex_at_shape (s ip port : list ascii) (n : nat) :
  proxyRegex_at s = Some (ip, port, n) -> regex_match_shape ip port.
Proof.
  unfold proxyRegex_at. intros H.
  destruct (strip_prefix _ s) as [r0|]; [|discriminate]. cbn in H.
  destruct (match_octet dot r0) as [[a r1]|] eqn:Ha; [|discriminate]. cbn in H.
  destruct (match_octet dot r1) as [[b r2]|] eqn:Hb; [|discriminate]. cbn in H.
  destruct (match_octet dot r2) as [[c r3]|] eqn:Hc; [|discriminate]. cbn in H.
  destruct (match_octet colon r3) as [[d r4]|] eqn:Hd; [|discriminate]. cbn in H.
  destruct (match_port r4) as [[pt r5]|] eqn:Hp; [|discriminate]. cbn in H.
  inversion H; subst.
  apply match_octet_spec in Ha as (Ha1 & Ha2 & _).
  apply match_octet_spec in Hb as (Hb1 & Hb2 & _).
  apply match_octet_spec in Hc as (Hc1 & Hc2 & _).
  apply match_octet_spec in Hd as (Hd1 & Hd2 & _).
  apply match_port_spec in Hp as (Hp1 & Hp2 & _).
  exists a, b, c, d.
  split; [reflexivity|]. split; [|split; assumption].
  repeat (constructor; [split; assumption|]). constructor.
Qed.

Lemma find_all_shape (s : list ascii) : forall (skip : nat) (ip port : list ascii),
  In (ip, port) (find_all skip s) -> regex_match_shape ip port.
Proof.
  induction s as [|c s IH]; intros skip ip port Hin; simpl in Hin; [contradiction|].
  destruct skip as [|k]; [|eauto].
  destruct (proxyRegex_at (c :: s)) as [[[ip' port'] n]|] eqn:Hm; [|eauto].
  destruct Hin as [Heq|Hin]; [|eauto].
  inversion Heq; subst. eapply proxyRegex_at_shape; eauto.
Qed.

Lemma regex_match_fields (ip port : list ascii) :
  regex_match_shape ip port ->
  Forall (fun c => plain c = true) ip /\
  Forall (fun c => plain c = true) port /\
  quad_shape (string_of_list_ascii ip) /\
  port_shape (string_of_list_ascii port).
Proof.
  intros (a & b & c & d & -> & Hq & Hp & Hlen).
  inversion Hq as [|? ? [Ha La] Hq1]; subst.
  inversion Hq1 as [|? ? [Hb Lb] Hq2]; subst.
  inversion Hq2 as [|? ? [Hc Lc] Hq3]; subst.
  inversion Hq3 as [|? ? [Hd Ld] _]; subst.
  assert (Hplain : forall l, Forall (fun x => is_digit x = true) l ->
                             Forall (fun x => plain x = true) l).
  { intros l Hl. eapply Forall_impl; [exact Hl|]. exact is_digit_plain. }
  assert (Hshape : forall l, Forall (fun x => is_digit x = true) l ->
                             (1 <= length l <= 3)%nat ->
                             octet_shape (string_of_list_ascii l)).
  { intros l Hl Hn. split.
    - unfold all_digits. now rewrite list_ascii_of_string_of_list_ascii.
    - now rewrite length_string_of_list_ascii. }
  split; [|split; [|split]].
  - repeat (apply Forall_app; split; [auto|]; apply List.Forall_cons; [reflexivity|]).
    auto.
  - auto.
  - exists (string_of_list_ascii a), (string_of_list_ascii b),
      (string_of_list_ascii c), (string_of_list_ascii d).
    split; [|auto].
    rewrite !string_of_list_ascii_app. simpl.
    rewrite !string_of_list_ascii_app. simpl.
    rewrite !string_of_list_ascii_app. reflexivity.
  - split.
    + unfold all_digits. now rewrite list_ascii_of_string_of_list_ascii.
    + now rewrite length_string_of_list_ascii.
Qed.

Lemma collect_origin (ms : list (string * string)) :
  forall (seen : gmap string bool) (acc : list Proxy) (p : Proxy),
  In p (collect ms seen acc) ->
  In p acc \/
  exists m1 m2, In (m1, m2) ms /\ p = mkProxy (TrimSpace m1) (TrimSpace m2) "" "".
Proof.
  induction ms as [|[m1 m2] ms IH]; intros seen acc p Hin; simpl in Hin.
  - now left.
  - destruct (default false (seen !! (m1 ++ ":" ++ m2)%string)).
    + destruct (IH _ _ _ Hin) as [H|(x & y & H & ->)]; [now left|].
      right. exists x, y. split; [now right | reflexivity].
    + destruct (IH _ _ _ Hin) as [H|(x & y & H & ->)].
      * apply in_app_or in H as [H|[<-|[]]]; [now left|].
        right. exists m1, m2. split; [now left | reflexivity].
      * right. exists x, y. split; [now right | reflexivity].
Qed.

(** C5, as the code has it: a [Proxy] that [Scrape] builds has an IP of
    four dot-separated groups of one to three decimal digits and a port
    that is a non-empty run of decimal digits, with empty geo fields. *)
Theorem Scrape_proxy_shape (resp : HttpResult) (ps : list Proxy) (p : Proxy) :
  Scrape resp = Some ps -> In p ps ->
  quad_shape (IP p) /\ port_shape (Port p) /\ Country p = "" /\ City p = "".
Proof.
  intros Hs Hin. unfold Scrape in Hs.
  destruct resp as [|code [b|]]; try discriminate;
    destruct (negb (code =? StatusOK)); try discriminate.
  inversion Hs; subst; clear Hs.
  apply collect_origin in Hin as [[]|(m1 & m2 & Hm & ->)].
  unfold FindAllStringSubmatch in Hm. apply in_map_iff in Hm as ([ip port] & Heq & Hm).
  inversion Heq; subst; clear Heq. simpl.
  apply find_all_shape in Hm. apply regex_match_fields in Hm as (Hi & Hp & Hq & Hps).
  rewrite !TrimSpace_plain by assumption. auto.
Qed.

Lemma Scrape_proxy_shape_witness :
  quad_shape "10.0.0.2" /\ port_shape "70000" /\ "" = "" /\ "" = "".
Proof.
  apply (Scrape_proxy_shape
           (GetReplied 200 (Some Sample.scraped_page))
           [mkProxy "10.0.0.1" "1080" "" ""; mkProxy "10.0.0.2" "70000" "" "";
            mkProxy "10.0.0.3" "0" "" ""]
           (mkProxy "10.0.0.2" "70000" "" "")).
  - vm_compute. reflexivity.
  - right. left. reflexivity.
Defined.

(** C5, as the specification words it, fails: [Scrape] builds proxies
    whose port is 70000 or 0. *)
Lemma Scrape_port_unchecked :
  Scrape (GetReplied 200 (Some Sample.scraped_page)) =
    Some [mkProxy "10.0.0.1" "1080" "" ""; mkProxy "10.0.0.2" "70000" "" "";
          mkProxy "10.0.0.3" "0" "" ""] /\
  spec_port_valid "70000" = false /\ spec_port_valid "0" = false.
Proof. vm_compute. auto. Qed.

End ScraperProps.

(** ** The checker *)

Section CheckerProps.
Import GoStrings Checker.

Variable net : Net.

(** A live worker splits the list of workers around itself. *)
Lemma lookup_split (ws : list Worker) (k : nat) (w : Worker) :
  ws !! k = Some w ->
  exists l1 l2, ws = l1 ++ w :: l2 /\
    (forall w', <[k := w']> ws = l1 ++ w' :: l2) /\
    delete k ws = l1 ++ l2.
Proof.
  intros Hk. exists (take k ws), (drop (S k) ws).
  assert (Hlt : (k < length ws)%nat) by (eapply lookup_lt_Some; eauto).
  split; [symmetry; apply take_drop_middle; exact Hk|]. split.
  - intros w'. apply insert_take_drop. exact Hlt.
  - apply delete_take_drop.
Qed.

Lemma tokens_app (l1 l2 : list Worker) :
  tokens (l1 ++ l2) = (tokens l1 + tokens l2)%nat.
Proof. induction l1 as [|w l1 IH]; simpl; [reflexivity|]. rewrite IH. lia. Qed.

Lemma counts_ok_init (proxies : list Proxy) : counts_ok (init proxies).
Proof. split; reflexivity. Qed.

Lemma exec_counts_ok (cap : Z) (a : Action) (s s' : State) :
  counts_ok s -> exec net cap a s = Some s' -> counts_ok s'.
Proof.
  intros [Hwg Hsem] He. destruct a as [|k|k]; simpl in He.
  - destruct (todo s) as [|[i p] rest]; [discriminate|].
    destruct (Z.of_nat (sem s) <? cap); [|discriminate].
    inversion He; subst; clear He. split; simpl.
    + rewrite length_app. simpl. lia.
    + rewrite tokens_app. simpl. lia.
  - destruct (todo s) as [|[i p] rest]; [discriminate|].
    destruct (workers s !! k) as [w|] eqn:Hk; [|discriminate].
    destruct (w_phase w) eqn:Hph; try discriminate.
    destruct (cap =? 0); [|discriminate].
    inversion He; subst; clear He.
    destruct (lookup_split _ _ _ Hk) as (l1 & l2 & Hws & Hins & _).
    split; simpl.
    + rewrite length_app, length_insert. simpl. lia.
    + rewrite Hins, Hsem, Hws, !tokens_app. simpl.
      unfold holds_token. rewrite Hph. simpl. lia.
  - destruct (workers s !! k) as [w|] eqn:Hk; [|discriminate].
    destruct (lookup_split _ _ _ Hk) as (l1 & l2 & Hws & Hins & Hdel).
    unfold worker_step in He. destruct (w_phase w) eqn:Hph.
    + destruct (LookupGeo _) as [country city].
      inversion He; subst; clear He. split; simpl.
      * rewrite length_insert. exact Hwg.
      * rewrite Hins, Hsem, Hws, !tokens_app. simpl. unfold holds_token.
        rewrite Hph. simpl. destruct (blocked _ _); reflexivity.
    + inversion He; subst; clear He. split; simpl.
      * rewrite length_insert. exact Hwg.
      * rewrite Hins, Hsem, Hws, !tokens_app. simpl. unfold holds_token.
        rewrite Hph. simpl. destruct (checkGoogle _); reflexivity.
    + inversion He; subst; clear He. split; simpl.
      * rewrite length_insert. exact Hwg.
      * rewrite Hins, Hsem, Hws, !tokens_app. simpl. unfold holds_token.
        rewrite Hph. reflexivity.
    + destruct (sem s) as [|n] eqn:Hn; [discriminate|].
      inversion He; subst; clear He. split; simpl.
      * rewrite length_insert. exact Hwg.
      * rewrite Hins. rewrite Hws, !tokens_app in Hsem. simpl in Hsem.
        unfold holds_token in Hsem. rewrite Hph in Hsem.
        rewrite tokens_app. simpl. lia.
    + destruct (wg s) as [|n] eqn:Hn; [discriminate|].
      inversion He; subst; clear He. split; simpl.
      * rewrite Hdel. rewrite Hws, length_app in Hwg. simpl in Hwg.
        rewrite length_app. lia.
      * rewrite Hdel, Hsem, Hws, !tokens_app. simpl. unfold holds_token.
        rewrite Hph. reflexivity.
Qed.

Lemma run_counts_ok (cap : Z) (sched : list Action) : forall s s' : State,
  counts_ok s -> run net cap sched s = Some s' -> counts_ok s'.
Proof.
  induction sched as [|a sched IH]; intros s s' Hc Hr; simpl in Hr.
  - inversion Hr; subst. exact Hc.
  - destruct (exec net cap a s) as [s1|] eqn:He; [|discriminate].
    eapply IH; [|exact Hr]. eapply exec_counts_ok; eauto.
Qed.

(** When [wg.Wait()] returns, no worker is left. *)
Lemma wg_counts_workers (cap : Z) (sched : list Action) (proxies : list Proxy) (s : State) :
  run net cap sched (init proxies) = Some s ->
  wg s = length (workers s).
Proof.
  intros Hr. apply (run_counts_ok cap sched _ _ (counts_ok_init proxies) Hr).
Qed.

(** *** What ends up in [alive] *)

Lemma pending_geo_step (w : Worker) (country city : string) :
  w_phase w = PGeo ->
  LookupGeo (geo_net net (w_idx w)) = (country, city) ->
  let px := mkProxy (IP (w_px w)) (Port (w_px w))
                    (TrimSpace country) (TrimSpace city) in
  pending net (mkWorker (w_idx w) px (if blocked net px then PRelease else PProbe)) =
  pending net w.
Proof.
  intros Hph Hgeo px. unfold pending at 2. rewrite Hph. unfold verify.
  rewrite Hgeo. fold px. unfold pending.
  destruct (blocked net px); simpl; [reflexivity|].
  destruct (checkGoogle _); reflexivity.
Qed.

(** A step leaves [content] as it is, except for an append, which moves
    one proxy from a worker to the end of [alive]. *)
Lemma pending_idle (w : Worker) :
  w_phase w = PRelease \/ w_phase w = PDone -> pending net w = [].
Proof. unfold pending. now intros [-> | ->]. Qed.

Lemma exec_content (cap : Z) (a : Action) (s s' : State) :
  exec net cap a s = Some s' ->
  content net s' = content net s \/
  exists w l1 l2,
    workers s = l1 ++ w :: l2 /\ holds_token w = true /\
    content net s = map snd (alive s) ++
                    (flat_map (pending net) l1 ++ w_px w :: flat_map (pending net) l2) ++
                    omap (fun ip => verify net ip.1 ip.2) (todo s) /\
    content net s' = (map snd (alive s) ++ [w_px w]) ++
                     (flat_map (pending net) l1 ++ flat_map (pending net) l2) ++
                     omap (fun ip => verify net ip.1 ip.2) (todo s).
Proof.
  intros He. destruct a as [|k|k]; simpl in He.
  - left. destruct (todo s) as [|[i p] rest] eqn:Ht; [discriminate|].
    destruct (Z.of_nat (sem s) <? cap); [|discriminate].
    inversion He; subst; clear He. unfold content. simpl. rewrite Ht.
    rewrite flat_map_app. simpl. rewrite app_nil_r, <- app_assoc.
    do 2 f_equal. unfold pending. simpl.
    destruct (verify net i p); reflexivity.
  - left. destruct (todo s) as [|[i p] rest] eqn:Ht; [discriminate|].
    destruct (workers s !! k) as [w|] eqn:Hk; [|discriminate].
    destruct (w_phase w) eqn:Hph; try discriminate.
    destruct (cap =? 0); [|discriminate].
    inversion He; subst; clear He.
    destruct (lookup_split _ _ _ Hk) as (l1 & l2 & Hws & Hins & _).
    unfold content. simpl. rewrite Ht, Hins, Hws.
    rewrite ?flat_map_app. simpl. rewrite ?flat_map_app. simpl.
    rewrite (pending_idle w) by (now left).
    rewrite app_nil_r, <- !app_assoc. simpl. do 3 f_equal.
    unfold pending. simpl.
    destruct (verify net i p); reflexivity.
  - destruct (workers s !! k) as [w|] eqn:Hk; [|discriminate].
    destruct (lookup_split _ _ _ Hk) as (l1 & l2 & Hws & Hins & Hdel).
    unfold worker_step in He. destruct (w_phase w) eqn:Hph.
    + left. destruct (LookupGeo _) as [country city] eqn:Hgeo.
      inversion He; subst; clear He. unfold content. simpl.
      rewrite Hins, Hws, ?flat_map_app. simpl.
      rewrite (pending_geo_step w country city Hph Hgeo). reflexivity.
    + left. inversion He; subst; clear He. unfold content. simpl.
      rewrite Hins, Hws, ?flat_map_app. simpl. do 3 f_equal.
      unfold pending, set_phase. simpl. rewrite Hph.
      destruct (checkGoogle _); reflexivity.
    + right. inversion He; subst; clear He. exists w, l1, l2.
      split; [exact Hws|]. split; [unfold holds_token; now rewrite Hph|].
      unfold content. simpl. rewrite Hins, Hws, ?flat_map_app. simpl.
      replace (pending net w) with [w_px w] by (unfold pending; now rewrite Hph).
      rewrite map_app. simpl. split; reflexivity.
    + left. destruct (sem s); [discriminate|].
      inversion He; subst; clear He. unfold content. simpl.
      rewrite Hins, Hws, ?flat_map_app. simpl.
      rewrite (pending_idle w) by (now left). reflexivity.
    + left. destruct (wg s); [discriminate|].
      inversion He; subst; clear He. unfold content. simpl.
      rewrite Hdel, Hws, ?flat_map_app. simpl.
      rewrite (pending_idle w) by (now right). reflexivity.
Qed.

Lemma exec_content_perm (cap : Z) (a : Action) (s s' : State) :
  exec net cap a s = Some s' -> content net s' ≡ₚ content net s.
Proof.
  intros He. destruct (exec_content cap a s s' He) as [->|(w & l1 & l2 & _ & _ & -> & ->)].
  - reflexivity.
  - rewrite <- !app_assoc. apply Permutation_app_head. simpl.
    apply Permutation_middle.
Qed.

Lemma run_content_perm (cap : Z) (sched : list Action) : forall s s' : State,
  run net cap sched s = Some s' -> content net s' ≡ₚ content net s.
Proof.
  induction sched as [|a sched IH]; intros s s' Hr; simpl in Hr.
  - inversion Hr; subst. reflexivity.
  - destruct (exec net cap a s) as [s1|] eqn:He; [|discriminate].
    rewrite (IH _ _ Hr). eapply exec_content_perm; eauto.
Qed.

(** With room for one element in [sem], a worker that has not received
    from it yet is the only such worker. *)
Lemma tokens_zero_pending (ws : list Worker) :
  tokens ws = O -> flat_map (pending net) ws = [].
Proof.
  induction ws as [|w ws IH]; simpl; [reflexivity|].
  unfold holds_token, pending. destruct (w_phase w); simpl; try discriminate.
  exact IH.
Qed.

Lemma exec_sem_bound (cap : Z) (a : Action) (s s' : State) :
  0 <= cap -> Z.of_nat (sem s) <= cap ->
  exec net cap a s = Some s' -> Z.of_nat (sem s') <= cap.
Proof.
  intros Hcap Hs He. destruct a as [|k|k]; simpl in He.
  - destruct (todo s) as [|[i p] rest]; [discriminate|].
    destruct (Z.ltb_spec (Z.of_nat (sem s)) cap); [|discriminate].
    inversion He; subst; clear He. simpl. lia.
  - destruct (todo s) as [|[i p] rest]; [discriminate|].
    destruct (workers s !! k) as [w|]; [|discriminate].
    destruct (w_phase w); try discriminate.
    destruct (cap =? 0); [|discriminate].
    inversion He; subst; clear He. exact Hs.
  - destruct (workers s !! k) as [w|]; [|discriminate].
    unfold worker_step in He. destruct (w_phase w).
    + destruct (LookupGeo _). inversion He; subst; clear He. exact Hs.
    + inversion He; subst; clear He. exact Hs.
    + inversion He; subst; clear He. exact Hs.
    + destruct (sem s) eqn:Hn; [discriminate|].
      inversion He; subst; clear He. simpl. lia.
    + destruct (wg s); [discriminate|].
      inversion He; subst; clear He. exact Hs.
Qed.

Lemma run_content_one (sched : list Action) : forall s s' : State,
  counts_ok s -> Z.of_nat (sem s) <= 1 ->
  run net 1 sched s = Some s' -> content net s' = content net s.
Proof.
  induction sched as [|a sched IH]; intros s s' Hc Hs Hr; simpl in Hr.
  - inversion Hr; subst. reflexivity.
  - destruct (exec net 1 a s) as [s1|] eqn:He; [|discriminate].
    rewrite (IH s1 s'); [| eapply exec_counts_ok; eauto
                         | eapply exec_sem_bound; eauto; lia | exact Hr].
    destruct (exec_content 1 a s s1 He) as [->|(w & l1 & l2 & Hws & Hw & -> & ->)];
      [reflexivity|].
    destruct Hc as [_ Hsem]. rewrite Hws, tokens_app in Hsem. simpl in Hsem.
    rewrite Hw in Hsem.
    rewrite (tokens_zero_pending l1) by lia.
    rewrite <- !app_assoc. reflexivity.
Qed.

Lemma finished_content (s : State) :
  wg s = length (workers s) -> finished s = true ->
  content net s = map snd (alive s).
Proof.
  unfold finished, content. intros Hwg Hf.
  destruct (todo s); [|discriminate]. destruct (wg s); [|discriminate].
  destruct (workers s); [|discriminate]. simpl. now rewrite app_nil_r.
Qed.

Lemma content_init (proxies : list Proxy) :
  content net (init proxies) = passing_in_order net proxies.
Proof. reflexivity. Qed.

(** *** The country filter *)

Lemma blocked_is_blocked (w : Worker) (country city : string) :
  LookupGeo (geo_net net (w_idx w)) = (country, city) ->
  blocked net (mkProxy (IP (w_px w)) (Port (w_px w))
                       (TrimSpace country) (TrimSpace city)) =
  is_blocked net (w_idx w).
Proof.
  intros Hgeo. unfold blocked, is_blocked, country_key. now rewrite Hgeo.
Qed.

Lemma exec_filter_respected (cap : Z) (a : Action) (s s' : State) :
  filter_respected net s -> exec net cap a s = Some s' -> filter_respected net s'.
Proof.
  intros (Hp & Ha & Hw) He. destruct a as [|k|k]; simpl in He.
  - destruct (todo s) as [|[i p] rest]; [discriminate|].
    destruct (Z.of_nat (sem s) <? cap); [|discriminate].
    inversion He; subst; clear He. repeat split; simpl; auto.
    apply Forall_app; split; [exact Hw|]. repeat constructor. discriminate.
  - destruct (todo s) as [|[i p] rest]; [discriminate|].
    destruct (workers s !! k) as [w|] eqn:Hk; [|discriminate].
    destruct (w_phase w) eqn:Hph; try discriminate.
    destruct (cap =? 0); [|discriminate].
    inversion He; subst; clear He. repeat split; simpl; auto.
    apply Forall_app; split.
    + apply Forall_insert; [exact Hw|]. discriminate.
    + repeat constructor. discriminate.
  - destruct (workers s !! k) as [w|] eqn:Hk; [|discriminate].
    assert (Hwk : past_filter w = true -> is_blocked net (w_idx w) = false)
      by (eapply (Forall_lookup_1 _ _ _ _ Hw); eauto).
    unfold worker_step in He. destruct (w_phase w) eqn:Hph.
    + destruct (LookupGeo _) as [country city] eqn:Hgeo.
      inversion He; subst; clear He. repeat split; simpl; auto.
      apply Forall_insert; [exact Hw|]. simpl.
      rewrite (blocked_is_blocked w country city Hgeo).
      unfold past_filter. simpl.
      destruct (is_blocked net (w_idx w)); [discriminate | reflexivity].
    + inversion He; subst; clear He.
      assert (Hi : is_blocked net (w_idx w) = false)
        by (apply Hwk; unfold past_filter; now rewrite Hph).
      repeat split; simpl; auto.
      * apply Forall_app; split; [exact Hp|]. repeat constructor. exact Hi.
      * apply Forall_insert; [exact Hw|]. intros _. exact Hi.
    + inversion He; subst; clear He.
      assert (Hi : is_blocked net (w_idx w) = false)
        by (apply Hwk; unfold past_filter; now rewrite Hph).
      repeat split; simpl; auto.
      * apply Forall_app; split; [exact Ha|]. repeat constructor. exact Hi.
      * apply Forall_insert; [exact Hw|]. discriminate.
    + destruct (sem s); [discriminate|].
      inversion He; subst; clear He. repeat split; simpl; auto.
      apply Forall_insert; [exact Hw|]. discriminate.
    + destruct (wg s); [discriminate|].
      inversion He; subst; clear He. repeat split; simpl; auto.
      apply Forall_delete. exact Hw.
Qed.

Lemma run_filter_respected (cap : Z) (sched : list Action) : forall s s' : State,
  filter_respected net s -> run net cap sched s = Some s' -> filter_respected net s'.
Proof.
  induction sched as [|a sched IH]; intros s s' Hf Hr; simpl in Hr.
  - inversion Hr; subst. exact Hf.
  - destruct (exec net cap a s) as [s1|] eqn:He; [|discriminate].
    eapply IH; [|exact Hr]. eapply exec_filter_respected; eauto.
Qed.

Lemma filter_respected_init (proxies : list Proxy) :
  filter_respected net (init proxies).
Proof. repeat split; constructor. Qed.

(** *** Running the workers one after the other *)

Lemma run_app (cap : Z) (sched1 sched2 : list Action) : forall s : State,
  run net cap (sched1 ++ sched2) s =
  match run net cap sched1 s with
  | Some s1 => run net cap sched2 s1
  | None => None
  end.
Proof.
  induction sched1 as [|a sched1 IH]; intros s; simpl; [reflexivity|].
  destruct (exec net cap a s); [apply IH | reflexivity].
Qed.

Lemma run_one (cap : Z) (i : nat) (p : Proxy) (td : list (nat * Proxy))
  (al : list (nat * Proxy)) (pr : list nat) :
  1 <= cap ->
  exists al' pr',
    run net cap (ASpawn :: repeat (AWorker 0) (worker_steps net i p))
        (mkState ((i, p) :: td) [] 0 0 al pr) =
    Some (mkState td [] 0 0 al' pr').
Proof.
  intros Hcap. cbn [run exec todo sem].
  destruct (Z.ltb_spec (Z.of_nat 0) cap) as [_|Hbad]; [|simpl in Hbad; lia].
  cbn [workers app wg alive probed].
  unfold worker_steps.
  destruct (LookupGeo (geo_net net i)) as [country city] eqn:Hgeo.
  set (px := mkProxy (IP p) (Port p) (TrimSpace country) (TrimSpace city)).
  destruct (blocked net px) eqn:Hb;
    [|destruct (checkGoogle (probe_net net i)) eqn:Hg].
  - cbn. rewrite Hgeo. fold px. rewrite Hb. cbn. eauto.
  - cbn. rewrite Hgeo. fold px. rewrite Hb. cbn. rewrite Hg. cbn. eauto.
  - cbn. rewrite Hgeo. fold px. rewrite Hb. cbn. rewrite Hg. cbn. eauto.
Qed.

Lemma run_sequential (cap : Z) (td : list (nat * Proxy)) :
  1 <= cap ->
  forall (al : list (nat * Proxy)) (pr : list nat),
  exists al' pr',
    run net cap (sequential net td) (mkState td [] 0 0 al pr) =
    Some (mkState [] [] 0 0 al' pr').
Proof.
  intros Hcap. induction td as [|[i p] td IH]; intros al pr.
  - exists al, pr. reflexivity.
  - cbn [sequential flat_map]. fold (sequential net td).
    rewrite run_app.
    destruct (run_one cap i p td al pr Hcap) as (al1 & pr1 & Hone).
    cbn [fst snd]. rewrite Hone. apply IH.
Qed.

End CheckerProps.

Section CheckerResults.
Import GoStrings Checker.

(** C3, as the code has it: when [CheckProxies] returns, its result
    holds exactly the candidates that pass verification, each with its
    geo data and as often as it occurs in the input, in the order in
    which the workers appended them; with [maxConcurrent = 1] that is
    the input order. *)
Theorem CheckProxies_output (net : Net) (proxies : list Proxy) (mc : Z)
  (sched : list Action) (out : list Proxy) :
  CheckProxies net proxies mc sched = Some (Ok out) ->
  out ≡ₚ passing_in_order net proxies /\
  (mc = 1 -> out = passing_in_order net proxies).
Proof.
  unfold CheckProxies. intros H.
  destruct (mc <? 0); [discriminate|].
  destruct (run net mc sched (init proxies)) as [s|] eqn:Hr; [|discriminate].
  destruct (finished s) eqn:Hf; [|discriminate].
  inversion H; subst; clear H.
  rewrite <- (finished_content net s (wg_counts_workers net mc sched proxies s Hr) Hf).
  rewrite <- content_init. split.
  - eapply run_content_perm; eauto.
  - intros ->. eapply run_content_one; eauto.
    + apply counts_ok_init.
    + simpl. lia.
Qed.

Lemma CheckProxies_output_witness :
  [Sample.ver_a; Sample.ver_c] ≡ₚ
    passing_in_order Sample.net_geo [Sample.cand_a; Sample.cand_b; Sample.cand_c] /\
  (1 = 1 -> [Sample.ver_a; Sample.ver_c] =
            passing_in_order Sample.net_geo [Sample.cand_a; Sample.cand_b; Sample.cand_c]).
Proof.
  apply (CheckProxies_output Sample.net_geo
           [Sample.cand_a; Sample.cand_b; Sample.cand_c] 1 Sample.sched_seq3).
  vm_compute. reflexivity.
Defined.

(** C3, as the specification words it, fails: with two workers in
    flight the second candidate can be appended before the first. *)
Lemma CheckProxies_overtake :
  CheckProxies Sample.net_open [Sample.cand_a; Sample.cand_b] 2 Sample.sched_overtake =
    Some (Ok [Sample.unk_b; Sample.unk_a]) /\
  passing_in_order Sample.net_open [Sample.cand_a; Sample.cand_b] =
    [Sample.unk_a; Sample.unk_b].
Proof. vm_compute. auto. Qed.

(** C4: a candidate whose looked-up country, trimmed and lowercased, is
    "china" or "hong kong" is never probed and never appended, in any
    state of any run; and what the call returns is what was appended. *)
Theorem blocked_country_skipped (net : Net) (proxies : list Proxy) (mc : Z)
  (sched : list Action) (s : State) (i : nat) :
  run net mc sched (init proxies) = Some s ->
  country_key net i = "china" \/ country_key net i = "hong kong" ->
(i ∉ probed s) /\ (i ∉ (alive s).*1) /\
  (forall out, CheckProxies net proxies mc sched = Some (Ok out) ->
               out = (alive s).*2).
Proof.
  intros Hr Hc.
  assert (Hb : is_blocked net i = true).
  { unfold is_blocked. destruct Hc as [-> | ->]; vm_compute; reflexivity. }
  destruct (run_filter_respected net mc sched _ _ (filter_respected_init net proxies) Hr)
    as (Hp & Ha & _).
  split; [|split].
  - intros Hin. rewrite Forall_forall in Hp. specialize (Hp i Hin). congruence.
  - intros Hin. apply list_elem_of_fmap in Hin as ([j px] & -> & Hin).
    rewrite Forall_forall in Ha. specialize (Ha _ Hin). simpl in *. congruence.
  - intros out. unfold CheckProxies. rewrite Hr.
    destruct (mc <? 0); [discriminate|].
    destruct (finished s); [|discriminate]. now intros [= <-].
Qed.

Lemma blocked_country_skipped_witness :
  (1%nat ∉ probed Sample.state_seq3) /\ (1%nat ∉ (alive Sample.state_seq3).*1) /\
  (forall out,
     CheckProxies Sample.net_geo [Sample.cand_a; Sample.cand_b; Sample.cand_c] 1
                  Sample.sched_seq3 = Some (Ok out) ->
     out = (alive Sample.state_seq3).*2).
Proof.
  apply (blocked_country_skipped Sample.net_geo
           [Sample.cand_a; Sample.cand_b; Sample.cand_c] 1 Sample.sched_seq3
           Sample.state_seq3 1).
  - vm_compute. reflexivity.
  - left. vm_compute. reflexivity.
Defined.

Lemma CheckProxies_unbuffered (net : Net) (p : Proxy) (ps : list Proxy)
  (sched : list Action) :
  CheckProxies net (p :: ps) 0 sched = None.
Proof.
  unfold CheckProxies. simpl. destruct sched as [|a sched]; [reflexivity|].
  destruct a as [|k|k]; reflexivity.
Qed.

(** C10: on a non-empty candidate list [CheckProxies] returns only when
    [maxConcurrent >= 1], and then it can return. With [maxConcurrent = 0]
    the first send on [sem] never completes: no worker has been started,
    nothing can run, and the call does not return. With
    [maxConcurrent < 0] the [make] of the channel panics. *)
Theorem CheckProxies_needs_capacity (net : Net) (p : Proxy) (ps : list Proxy) :
  (forall mc sched out,
     CheckProxies net (p :: ps) mc sched = Some (Ok out) -> 1 <= mc) /\
  (forall mc, 1 <= mc ->
     exists sched out, CheckProxies net (p :: ps) mc sched = Some (Ok out)) /\
  (workers (init (p :: ps)) = [] /\
   finished (init (p :: ps)) = false /\
   (forall a, exec net 0 a (init (p :: ps)) = None) /\
   (forall sched, CheckProxies net (p :: ps) 0 sched = None)) /\
  (forall mc sched, mc < 0 -> CheckProxies net (p :: ps) mc sched = Some Panicked).
Proof.
  assert (Hneg : forall mc sched, mc < 0 ->
                   CheckProxies net (p :: ps) mc sched = Some Panicked).
  { intros mc sched Hmc. unfold CheckProxies.
    destruct (Z.ltb_spec mc 0); [reflexivity | lia]. }
  split; [|split; [|split]].
  - intros mc sched out H.
    destruct (Z_lt_dec mc 0) as [Hn|Hn]; [rewrite Hneg in H by exact Hn; discriminate|].
    destruct (Z.eq_dec mc 0) as [->|Hz]; [|lia].
    rewrite CheckProxies_unbuffered in H. discriminate.
  - intros mc Hmc.
    destruct (run_sequential net mc (imap (fun i q => (i, q)) (p :: ps)) Hmc [] [])
      as (al & pr & Hrun).
    exists (sequential net (imap (fun i q => (i, q)) (p :: ps))), (map snd al).
    unfold CheckProxies, init. destruct (Z.ltb_spec mc 0); [lia|].
    rewrite Hrun. reflexivity.
  - split; [reflexivity|]. split; [reflexivity|]. split.
    + intros [|k|k]; reflexivity.
    + apply CheckProxies_unbuffered.
  - exact Hneg.
Qed.

End CheckerResults.

(** ** The SOCKS5 server *)

Section DataplaneProps.
Import Pool Dataplane.








End DataplaneProps.

(** ** The orchestrator *)

Section OrchestratorProps.
Import Pool Orchestrator.

(** C8: when the scraper returns an error the refresh cycle returns at
    once: no call is made on the pool, whose proxy sequence and active
    index stay as they were, and the timing state is not written. *)
Theorem refreshPool_scrape_error (cfg : Config) (cy : Cycle) (st : System) :
  Scraper.Scrape (http cy) = None ->
  exists st',
    refreshPool cfg cy st = Some (Ok st') /\
    pool_log st' = pool_log st /\
    proxies (pool st') = proxies (pool st) /\
    CurrentIndex (pool st') = CurrentIndex (pool st) /\
    timing st' = timing st.
Proof.
  intros Herr. exists st. unfold refreshPool. rewrite Herr. auto.
Qed.

Lemma refreshPool_scrape_error_witness :
  exists st',
    refreshPool Sample.cfg_default Sample.cycle_503 Sample.system3 = Some (Ok st') /\
    pool_log st' = pool_log Sample.system3 /\
    proxies (pool st') = proxies (pool Sample.system3) /\
    CurrentIndex (pool st') = CurrentIndex (pool Sample.system3) /\
    timing st' = timing Sample.system3.
Proof.
  apply (refreshPool_scrape_error Sample.cfg_default Sample.cycle_503 Sample.system3).
  reflexivity.
Defined.

Lemma rotation_delay_range (k : Z) :
  0 <= k < 5 ->
  rotation_delay k = 5 * Minute + k * Minute /\
  5 * Minute <= rotation_delay k <= 9 * Minute.
Proof.
  intros Hk. unfold rotation_delay, int_add, int_mul.
  rewrite (wrap_small (k * Minute)) by (unfold Minute, MinInt, MaxInt; lia).
  rewrite wrap_small by (unfold Minute, MinInt, MaxInt; lia).
  unfold Minute. lia.
Qed.

(** One turn of the loop. *)
Lemma rotate_once_spec (t : Turn) (p : ProxyPool) :
  pool_inv p -> turn_ok t ->
  exists r p',
    rotate_once t p = Ok (r, p') /\ pool_inv p' /\
    (size_seen r <= 1 -> switched r = false) /\
    delay r = 5 * Minute + draw t * Minute /\
    5 * Minute <= delay r <= 9 * Minute.
Proof.
  intros Hinv (Hk & Hs & Hb). unfold rotate_once.
  destruct (run_ops_inv (during_sleep t) p Hs Hinv) as (p1 & -> & Hinv1). cbn.
  destruct (rotation_delay_range (draw t) Hk) as [Hd Hr].
  destruct (Z.ltb_spec 1 (Size p1)) as [Hn|Hn].
  - destruct (run_ops_inv (before_switch t) p1 Hb Hinv1) as (p2 & -> & Hinv2). cbn.
    destruct (SwitchNext_spec p2 Hinv2) as (px & p3 & -> & Hinv3). cbn.
    eexists _, _. split; [reflexivity|]. split; [exact Hinv3|].
    cbn. split; [lia|]. split; assumption.
  - eexists _, _. split; [reflexivity|]. split; [exact Hinv1|].
    cbn. split; [reflexivity|]. split; assumption.
Qed.

Lemma rotation_loop_spec (turns : list Turn) : forall p : ProxyPool,
  pool_inv p -> Forall turn_ok turns ->
  exists log p',
    rotation_loop turns p = Ok (log, p') /\
    length log = length turns /\
    Forall (fun r =>
              (size_seen r <= 1 -> switched r = false) /\
              (exists k, 0 <= k <= 4 /\ delay r = 5 * Minute + k * Minute) /\
              5 * Minute <= delay r <= 9 * Minute) log.
Proof.
  induction turns as [|t turns IH]; intros p Hinv Hts; simpl.
  - exists [], p. repeat split; constructor.
  - inversion Hts as [|? ? Ht Hrest]; subst.
    destruct (rotate_once_spec t p Hinv Ht) as (r & p1 & -> & Hinv1 & H1 & H2 & H3).
    cbn. destruct (IH p1 Hinv1 Hrest) as (log & p' & -> & Hlen & Hall). cbn.
    exists (r :: log), p'. split; [reflexivity|]. split; [simpl; lia|].
    constructor; [|exact Hall]. split; [exact H1|]. split; [|exact H3].
    exists (draw t). split; [destruct Ht; lia | exact H2].
Qed.

(** C9: in every turn of the rotation loop the sleep is
    [5 min + k min] for some [k] in 0..4, hence between 5 and 9 minutes,
    and [SwitchNext] is not called when the [Size()] the loop read is at
    most 1. The loop never panics. *)
Theorem rotation_loop_contract (p : ProxyPool) (turns : list Turn) :
  reachable p -> Forall turn_ok turns ->
  exists log p',
    rotation_loop turns p = Ok (log, p') /\
    length log = length turns /\
    Forall (fun r =>
              (size_seen r <= 1 -> switched r = false) /\
              (exists k, 0 <= k <= 4 /\ delay r = 5 * Minute + k * Minute) /\
              5 * Minute <= delay r <= 9 * Minute) log.
Proof.
  intros Hr Hts. apply rotation_loop_spec; [|exact Hts].
  apply reachable_inv. exact Hr.
Qed.

Lemma rotation_loop_contract_witness :
  exists log p',
    rotation_loop Sample.turns3 Sample.pool3 = Ok (log, p') /\
    length log = length Sample.turns3 /\
    Forall (fun r =>
              (size_seen r <= 1 -> switched r = false) /\
              (exists k, 0 <= k <= 4 /\ delay r = 5 * Minute + k * Minute) /\
              5 * Minute <= delay r <= 9 * Minute) log.
Proof.
  apply (rotation_loop_contract Sample.pool3 Sample.turns3).
  - exists [OpUpdate [Sample.px_a; Sample.px_b; Sample.px_c]; OpSwitchTo 1].
    split; [ops_ok | reflexivity].
  - unfold Sample.turns3, turn_ok.
    repeat (apply List.Forall_cons; [cbn; split; [lia|]; split; ops_ok|]).
    apply List.Forall_nil.
Defined.

End OrchestratorProps.

(* ===================================================================== *)
(** * Further properties *)
(* ===================================================================== *)

(** ** The proxy pool: how the methods fit together *)

Section PoolContracts.
Import Pool.

Lemma reachable_sample : reachable Sample.pool3.
Proof.
  exists [OpUpdate [Sample.px_a; Sample.px_b; Sample.px_c]; OpSwitchTo 1].
  split; [ops_ok | reflexivity].
Defined.

(** X1: [Current] answers [ok = false] on an empty pool and, on a
    non-empty one, the proxy at the active index with [ok = true]; it
    does not panic. *)
Theorem Current_contract (p : ProxyPool) :
  reachable p ->
  (Size p = 0 -> Current p = Ok (Proxy_zero, false)) /\
  (0 < Size p ->
   exists px, Current p = Ok (px, true) /\
              proxies p !! Z.to_nat (CurrentIndex p) = Some px).
Proof.
  intros Hr. apply reachable_inv in Hr as [_ Hc]. unfold Current, Size, CurrentIndex in *.
  split; intros Hn.
  - now rewrite Hn.
  - destruct (Z.eqb_spec (len (proxies p)) 0); [lia|].
    destruct (index_in_range (proxies p) (current p) (Hc Hn)) as (px & -> & Hl).
    exists px. auto.
Qed.

Lemma Current_contract_witness :
  (Size Sample.pool3 = 0 -> Current Sample.pool3 = Ok (Proxy_zero, false)) /\
  (0 < Size Sample.pool3 ->
   exists px, Current Sample.pool3 = Ok (px, true) /\
              proxies Sample.pool3 !! Z.to_nat (CurrentIndex Sample.pool3) = Some px).
Proof. apply (Current_contract Sample.pool3). exact reachable_sample. Defined.

(** X2: [SwitchNext] leaves an empty pool alone and answers [ok = false];
    on a non-empty pool it keeps the proxy sequence, moves the index to
    [(index + 1) mod Size()] and returns the proxy found there. *)
Theorem SwitchNext_contract (p : ProxyPool) :
  reachable p ->
  (Size p = 0 -> SwitchNext p = Ok (Proxy_zero, false, p)) /\
  (0 < Size p ->
   exists px p',
     SwitchNext p = Ok (px, true, p') /\
     proxies p' = proxies p /\
     CurrentIndex p' = (CurrentIndex p + 1) mod Size p /\
     proxies p !! Z.to_nat (CurrentIndex p') = Some px).
Proof.
  intros Hr. apply reachable_inv in Hr. split; intros Hn.
  - apply SwitchNext_empty. exact Hn.
  - destruct (SwitchNext_step p Hr Hn) as (px & Hsw & Hl).
    eexists _, _. split; [exact Hsw|]. auto.
Qed.

Lemma SwitchNext_contract_witness :
  (Size Sample.pool3 = 0 -> SwitchNext Sample.pool3 = Ok (Proxy_zero, false, Sample.pool3)) /\
  (0 < Size Sample.pool3 ->
   exists px p',
     SwitchNext Sample.pool3 = Ok (px, true, p') /\
     proxies p' = proxies Sample.pool3 /\
     CurrentIndex p' = (CurrentIndex Sample.pool3 + 1) mod Size Sample.pool3 /\
     proxies Sample.pool3 !! Z.to_nat (CurrentIndex p') = Some px).
Proof. apply (SwitchNext_contract Sample.pool3). exact reachable_sample. Defined.

(** X3: the proxy a successful [SwitchNext] or [SwitchTo] returns is the
    one [Current] reports right after it. *)
Theorem switch_then_Current (p p' : ProxyPool) (px : Proxy) (i : Z) :
  reachable p ->
  SwitchNext p = Ok (px, true, p') \/ SwitchTo i p = Ok (px, true, p') ->
  Current p' = Ok (px, true).
Proof.
  intros Hr Hsw. pose proof (reachable_inv p Hr) as Hinv.
  assert (Hgoal : forall c, 0 <= c < len (proxies p) ->
            proxies p !! Z.to_nat c = Some px ->
            Current (mkPool (proxies p) c) = Ok (px, true)).
  { intros c Hc Hl. unfold Current. cbn [proxies current].
    destruct (Z.eqb_spec (len (proxies p)) 0); [lia|].
    destruct (index_in_range (proxies p) c Hc) as (px' & -> & Hl').
    cbn. congruence. }
  destruct Hsw as [Hsw|Hsw].
  - destruct (Z.eq_dec (Size p) 0) as [E|E].
    + rewrite (SwitchNext_empty p E) in Hsw. discriminate.
    + assert (Hn : 0 < Size p)
        by (pose proof (len_nonneg (proxies p)); unfold Size in *; lia).
      destruct (SwitchNext_step p Hinv Hn) as (px' & Hsw' & Hl).
      rewrite Hsw' in Hsw. inversion Hsw; subst. apply Hgoal; [|exact Hl].
      apply Z.mod_pos_bound. exact Hn.
  - destruct (Z_le_dec 0 i) as [H0|H0]; [destruct (Z_lt_dec i (Size p)) as [H1|H1]|].
    + destruct (SwitchTo_in_range i p (conj H0 H1)) as (px' & Hsw' & Hl).
      rewrite Hsw' in Hsw. inversion Hsw; subst. apply Hgoal; [|exact Hl].
      unfold Size in H1. lia.
    + rewrite SwitchTo_out_of_range in Hsw by lia. discriminate.
    + rewrite SwitchTo_out_of_range in Hsw by lia. discriminate.
Qed.

Lemma switch_then_Current_witness :
  Current (mkPool [Sample.px_a; Sample.px_b; Sample.px_c] 2) = Ok (Sample.px_c, true).
Proof.
  apply (switch_then_Current Sample.pool3 _ Sample.px_c 0 reachable_sample).
  left. reflexivity.
Defined.

(** X4: after [Update(ps)] with a non-empty [ps], [k] calls of
    [SwitchNext] make [ps[k mod len(ps)]] the active proxy. *)
Theorem Update_then_rotate (ps : list Proxy) (p : ProxyPool) (k : nat) :
  slice_ok ps -> 0 < len ps ->
  exists p' px,
    SwitchNext_times k (Update ps p) = Ok p' /\
    Current p' = Ok (px, true) /\
    ps !! Z.to_nat (Z.of_nat k mod len ps) = Some px /\
    All p' = ps.
Proof.
  intros Hs Hn. unfold Update.
  rewrite SwitchNext_times_ring by (auto; lia). rewrite Z.add_0_l.
  assert (Hm : 0 <= Z.of_nat k mod len ps < len ps) by (apply Z.mod_pos_bound; lia).
  destruct (index_in_range ps _ Hm) as (px & Hpx & Hl).
  eexists _, px. split; [reflexivity|]. split; [|split; [exact Hl | reflexivity]].
  unfold Current. cbn [proxies current].
  destruct (Z.eqb_spec (len ps) 0); [lia|]. rewrite Hpx. reflexivity.
Qed.

Lemma Update_then_rotate_witness :
  exists p' px,
    SwitchNext_times 4 (Update [Sample.px_a; Sample.px_b; Sample.px_c] NewProxyPool) = Ok p' /\
    Current p' = Ok (px, true) /\
    [Sample.px_a; Sample.px_b; Sample.px_c] !!
      Z.to_nat (Z.of_nat 4 mod len [Sample.px_a; Sample.px_b; Sample.px_c]) = Some px /\
    All p' = [Sample.px_a; Sample.px_b; Sample.px_c].
Proof.
  apply (Update_then_rotate [Sample.px_a; Sample.px_b; Sample.px_c] NewProxyPool 4).
  - unfold slice_ok, len, MaxInt. simpl. lia.
  - reflexivity.
Defined.

(** X5: only [Update] changes the proxy sequence: a run of [SwitchNext]
    and [SwitchTo] calls, whatever their arguments and results, leaves
    it as it was. *)
Theorem switches_keep_proxies (ops : list PoolOp) : forall p p' : ProxyPool,
  Forall (fun op => forall ps, op <> OpUpdate ps) ops ->
  run_ops ops p = Ok p' ->
  proxies p' = proxies p.
Proof.
  induction ops as [|op ops IH]; intros p p' Hops Hrun; simpl in Hrun.
  - now inversion Hrun.
  - inversion Hops as [|? ? Hop Hrest]; subst.
    destruct (apply_op op p) as [p1|] eqn:Hop1; [|discriminate]. cbn in Hrun.
    rewrite (IH p1 p' Hrest Hrun).
    destruct op as [ps| |i]; simpl in Hop1.
    + exfalso. exact (Hop ps eq_refl).
    + unfold SwitchNext in Hop1.
      destruct (len (proxies p) =? 0); [now inversion Hop1|].
      destruct (int_rem _ _) as [c|]; [|discriminate]. cbn in Hop1.
      destruct (index (proxies p) c); [|discriminate]. now inversion Hop1.
    + unfold SwitchTo in Hop1.
      destruct ((i <? 0) || (len (proxies p) <=? i)); [now inversion Hop1|].
      destruct (index (proxies p) i); [|discriminate]. now inversion Hop1.
Qed.

Lemma switches_keep_proxies_witness :
  proxies (mkPool [Sample.px_a; Sample.px_b; Sample.px_c] 0) = proxies Sample.pool3.
Proof.
  apply (switches_keep_proxies [OpSwitchNext; OpSwitchTo 9; OpSwitchNext; OpSwitchTo 0]).
  - repeat (apply List.Forall_cons; [intros ps; discriminate|]). apply List.Forall_nil.
  - reflexivity.
Defined.

End PoolContracts.

(** ** The scraper: duplicates, order, and reading back [Proxy.String] *)

Section ScraperContracts.
Import GoStrings Scraper.

Lemma list_ascii_of_string_app (s1 s2 : string) :
  list_ascii_of_string (s1 ++ s2) =
  list_ascii_of_string s1 ++ list_ascii_of_string s2.
Proof. induction s1 as [|c s1 IH]; simpl; [reflexivity|]. now rewrite IH. Qed.

Lemma match_trim_id (body : string) (m1 m2 : string) :
  In (m1, m2) (FindAllStringSubmatch body) ->
  TrimSpace m1 = m1 /\ TrimSpace m2 = m2.
Proof.
  unfold FindAllStringSubmatch. intros Hm.
  apply in_map_iff in Hm as ([ip port] & Heq & Hm). inversion Heq; subst.
  apply find_all_shape in Hm. apply regex_match_fields in Hm as (Hi & Hp & _).
  simpl. split; apply TrimSpace_plain; assumption.
Qed.

(** What the [seen] map knows is what has been appended. *)
Lemma collect_dedup (ms : list (string * string)) :
  forall (seen : gmap string bool) (acc : list Proxy),
  Forall (fun m => TrimSpace m.1 = m.1 /\ TrimSpace m.2 = m.2) ms ->
  (forall k, default false (seen !! k) = true <-> In k (map Addr acc)) ->
  NoDup (map Addr acc) ->
  exists rest,
    collect ms seen acc = acc ++ rest /\
    NoDup (map Addr (acc ++ rest)) /\
    sublist (map (fun p => (IP p, Port p)) rest) ms /\
    (forall m, In m ms -> In (m.1 ++ ":" ++ m.2)%string (map Addr (acc ++ rest))).
Proof.
  induction ms as [|[m1 m2] ms IH]; intros seen acc Hms Hseen Hnd; simpl.
  - exists []. rewrite app_nil_r. repeat split; auto. intros m [].
  - inversion Hms as [|? ? [Ht1 Ht2] Hrest]; subst. simpl in Ht1, Ht2.
    destruct (default false (seen !! (m1 ++ ":" ++ m2)%string)) eqn:Hs.
    + destruct (IH seen acc Hrest Hseen Hnd) as (rest & -> & Hnd' & Hsub & Hall).
      exists rest. repeat split; auto.
      * apply sublist_cons. exact Hsub.
      * intros m [<-|Hm]; [|auto]. simpl. rewrite map_app. apply in_or_app. left.
        apply Hseen. exact Hs.
    + set (px := mkProxy (TrimSpace m1) (TrimSpace m2) "" "").
      assert (Hpx : Addr px = (m1 ++ ":" ++ m2)%string)
        by (unfold Addr, px; simpl; now rewrite Ht1, Ht2).
      destruct (IH (<[(m1 ++ ":" ++ m2)%string := true]> seen) (acc ++ [px]) Hrest)
        as (rest & -> & Hnd' & Hsub & Hall).
      * intros k. rewrite map_app, in_app_iff. simpl. rewrite Hpx.
        destruct (decide ((m1 ++ ":" ++ m2)%string = k)) as [<-|Hne].
        -- rewrite lookup_insert_eq. simpl. tauto.
        -- rewrite lookup_insert_ne by exact Hne. rewrite Hseen. tauto.
      * rewrite map_app. simpl. rewrite Hpx. apply NoDup_app. split; [exact Hnd|].
        split; [|apply NoDup_singleton].
        intros k Hk Hk'. apply list_elem_of_In in Hk. apply list_elem_of_singleton in Hk'. subst k.
        apply Hseen in Hk. congruence.
      * exists (px :: rest). rewrite <- app_assoc in *. simpl in *.
        repeat split; auto.
        -- rewrite Ht1, Ht2. apply sublist_skip. exact Hsub.
        -- intros m [<-|Hm]; [|auto]. simpl. rewrite map_app. apply in_or_app. right.
           left. exact Hpx.
Qed.

(** X6: the proxies [Scrape] returns carry pairwise different
    [ip:port] addresses, come in the order of the matches on the page,
    and every address matched on the page is among them. *)
Theorem Scrape_deduplicates (code : Z) (body : string) (ps : list Proxy) :
  Scrape (GetReplied code (Some body)) = Some ps ->
  NoDup (map Addr ps) /\
  sublist (map (fun p => (IP p, Port p)) ps) (FindAllStringSubmatch body) /\
  (forall m1 m2, In (m1, m2) (FindAllStringSubmatch body) ->
                 In (m1 ++ ":" ++ m2)%string (map Addr ps)).
Proof.
  unfold Scrape. destruct (negb (code =? StatusOK)); [discriminate|].
  intros [= <-].
  destruct (collect_dedup (FindAllStringSubmatch body) ∅ []) as (rest & -> & Hnd & Hsub & Hall).
  - apply Forall_forall. intros [m1 m2] Hm. apply list_elem_of_In in Hm.
    apply (match_trim_id body). exact Hm.
  - intros k. rewrite lookup_empty. simpl. split; [discriminate | tauto].
  - constructor.
  - simpl in *. repeat split; auto. intros m1 m2 Hm. apply (Hall (m1, m2) Hm).
Qed.

Lemma Scrape_deduplicates_witness :
  NoDup (map Addr [mkProxy "10.0.0.1" "1080" "" ""; mkProxy "10.0.0.2" "70000" "" "";
                   mkProxy "10.0.0.3" "0" "" ""]) /\
  sublist (map (fun p => (IP p, Port p))
               [mkProxy "10.0.0.1" "1080" "" ""; mkProxy "10.0.0.2" "70000" "" "";
                mkProxy "10.0.0.3" "0" "" ""])
          (FindAllStringSubmatch (Sample.scraped_page ++ Sample.scraped_page)) /\
  (forall m1 m2,
     In (m1, m2) (FindAllStringSubmatch (Sample.scraped_page ++ Sample.scraped_page)) ->
     In (m1 ++ ":" ++ m2)%string
        (map Addr [mkProxy "10.0.0.1" "1080" "" ""; mkProxy "10.0.0.2" "70000" "" "";
                   mkProxy "10.0.0.3" "0" "" ""])).
Proof.
  apply (Scrape_deduplicates 200 (Sample.scraped_page ++ Sample.scraped_page)).
  vm_compute. reflexivity.
Defined.

(** *** Reading back what [Proxy.String] prints *)

Lemma take_digits_app (d r : list ascii) :
  Forall (fun x => is_digit x = true) d ->
  match r with [] => True | c :: _ => is_digit c = false end ->
  take_digits (d ++ r) = (d, r).
Proof.
  intros Hd Hr. induction Hd as [|x d Hx Hd IH]; simpl.
  - destruct r as [|c r]; [reflexivity|]. simpl. now rewrite Hr.
  - rewrite Hx, IH. reflexivity.
Qed.

Lemma match_octet_app (sep : ascii) (d r : list ascii) :
  is_digit sep = false ->
  Forall (fun x => is_digit x = true) d /\ (1 <= length d <= 3)%nat ->
  match_octet sep (d ++ sep :: r) = Some (d, r).
Proof.
  intros Hsep [Hd Hl]. unfold match_octet.
  rewrite take_digits_app by assumption.
  destruct (Nat.leb_spec 1 (length d)); [|lia].
  destruct (Nat.leb_spec (length d) 3); [|lia]. simpl.
  now rewrite Ascii.eqb_refl.
Qed.

Lemma strip_prefix_app (pre s : list ascii) :
  strip_prefix pre (pre ++ s) = Some s.
Proof.
  induction pre as [|c pre IH]; simpl; [reflexivity|].
  now rewrite Ascii.eqb_refl.
Qed.

(** The bytes [Proxy.String] prints for a scraped proxy, and the match
    they give when followed by a byte that is no digit. *)
Lemma octet_shape_list (a : string) :
  octet_shape a ->
  Forall (fun x => is_digit x = true) (list_ascii_of_string a) /\
  (1 <= length (list_ascii_of_string a) <= 3)%nat.
Proof.
  intros [Hd Hl]. split; [exact Hd|].
  now rewrite <- length_string_of_list_ascii, string_of_list_ascii_of_string.
Qed.

Lemma proxyRegex_at_printed (p : Proxy) (r : list ascii) :
  scraped_shape p ->
  match r with [] => True | c :: _ => is_digit c = false end ->
  proxyRegex_at (list_ascii_of_string (Proxy_String p) ++ r) =
  Some (list_ascii_of_string (IP p), list_ascii_of_string (Port p),
        length (list_ascii_of_string (Proxy_String p))).
Proof.
  intros ((a & b & c & d & Hip & Ha & Hb & Hc & Hd) & [Hpd Hpl] & _) Hr.
  apply octet_shape_list in Ha, Hb, Hc, Hd.
  assert (Hpl' : (1 <= length (list_ascii_of_string (Port p)))%nat)
    by now rewrite <- length_string_of_list_ascii, string_of_list_ascii_of_string.
  unfold Proxy_String. rewrite Hip.
  rewrite !list_ascii_of_string_app.
  set (la := list_ascii_of_string a) in *. set (lb := list_ascii_of_string b) in *.
  set (lc := list_ascii_of_string c) in *. set (ld := list_ascii_of_string d) in *.
  set (lp := list_ascii_of_string (Port p)) in *.
  change (list_ascii_of_string ".") with [dot].
  change (list_ascii_of_string ":") with [colon].
  set (pre := list_ascii_of_string "socks5://").
  replace ((pre ++ (la ++ [dot] ++ lb ++ [dot] ++ lc ++ [dot] ++ ld) ++ [colon] ++ lp) ++ r)
    with (pre ++ la ++ dot :: lb ++ dot :: lc ++ dot :: ld ++ colon :: lp ++ r)
    by (rewrite <- !app_assoc; reflexivity).
  unfold proxyRegex_at. rewrite strip_prefix_app. cbn [mbind option_bind].
  rewrite (match_octet_app dot la) by (auto; reflexivity). cbn [mbind option_bind].
  rewrite (match_octet_app dot lb) by (auto; reflexivity). cbn [mbind option_bind].
  rewrite (match_octet_app dot lc) by (auto; reflexivity). cbn [mbind option_bind].
  rewrite (match_octet_app colon ld) by (auto; reflexivity). cbn [mbind option_bind].
  unfold match_port. rewrite (take_digits_app lp r) by assumption.
  destruct (Nat.leb_spec 1 (length lp)); [|lia]. cbn [mbind option_bind].
  assert (Hn : (length (pre ++ la ++ dot :: lb ++ dot :: lc ++ dot :: ld ++ colon :: lp ++ r)
                - length r)%nat =
               length (pre ++ (la ++ [dot] ++ lb ++ [dot] ++ lc ++ [dot] ++ ld) ++ [colon] ++ lp)).
  { repeat (rewrite ?length_app; cbn [length]). lia. }
  rewrite Hn. reflexivity.
Qed.

Lemma find_all_skip (l r : list ascii) :
  find_all (length l) (l ++ r) = find_all 0 r.
Proof. induction l as [|c l IH]; simpl; [now destruct r | exact IH]. Qed.

Lemma find_all_printed (p : Proxy) (rest : list ascii) :
  scraped_shape p ->
  find_all 0 (list_ascii_of_string (Proxy_String p) ++ ascii_of_N 10 :: rest) =
  (list_ascii_of_string (IP p), list_ascii_of_string (Port p)) :: find_all 0 rest.
Proof.
  intros Hp.
  pose proof (proxyRegex_at_printed p (ascii_of_N 10 :: rest) Hp eq_refl) as Hm.
  destruct (list_ascii_of_string (Proxy_String p)) as [|c0 l] eqn:Hl;
    [discriminate Hl|].
  cbn [app find_all]. cbn [app] in Hm. rewrite Hm. f_equal.
  cbn [length]. rewrite Nat.sub_succ, Nat.sub_0_r.
  rewrite find_all_skip. reflexivity.
Qed.

Lemma FindAll_print_page (ps : list Proxy) :
  Forall scraped_shape ps ->
  FindAllStringSubmatch (print_page ps) = map (fun p => (IP p, Port p)) ps.
Proof.
  unfold FindAllStringSubmatch. induction 1 as [|p ps Hp Hps IH]; [reflexivity|].
  cbn [print_page]. rewrite list_ascii_of_string_app. cbn [list_ascii_of_string].
  rewrite find_all_printed by exact Hp. cbn [map fst snd].
  rewrite !string_of_list_ascii_of_string. f_equal. exact IH.
Qed.

Lemma scraped_shape_trim (p : Proxy) :
  scraped_shape p ->
  mkProxy (TrimSpace (IP p)) (TrimSpace (Port p)) "" "" = p.
Proof.
  intros Hp.
  pose proof (proxyRegex_at_printed p [] Hp I) as Hm.
  apply proxyRegex_at_shape in Hm. apply regex_match_fields in Hm as (Hi & Hpt & _).
  apply TrimSpace_plain in Hi, Hpt. rewrite !string_of_list_ascii_of_string in Hi, Hpt.
  destruct Hp as (_ & _ & Hc & Hy). destruct p as [ip port country city].
  simpl in *. now rewrite Hi, Hpt, Hc, Hy.
Qed.

Lemma collect_fresh (ps : list Proxy) :
  forall (seen : gmap string bool) (acc : list Proxy),
  Forall scraped_shape ps ->
  (forall k, default false (seen !! k) = true <-> In k (map Addr acc)) ->
  NoDup (map Addr (acc ++ ps)) ->
  collect (map (fun p => (IP p, Port p)) ps) seen acc = acc ++ ps.
Proof.
  induction ps as [|p ps IH]; intros seen acc Hps Hseen Hnd; simpl.
  - now rewrite app_nil_r.
  - inversion Hps as [|? ? Hp Hrest]; subst.
    change (IP p ++ ":" ++ Port p)%string with (Addr p).
    rewrite map_app in Hnd. simpl in Hnd.
    assert (Hfresh : default false (seen !! Addr p) = false).
    { destruct (default false (seen !! Addr p)) eqn:Hs; [|reflexivity].
      apply Hseen in Hs. apply NoDup_app in Hnd as (_ & Hdis & _).
      exfalso. apply (Hdis (Addr p)); [now apply list_elem_of_In | left]. }
    rewrite Hfresh, (scraped_shape_trim p Hp).
    rewrite (IH _ (acc ++ [p]) Hrest).
    + now rewrite <- app_assoc.
    + intros k. rewrite map_app, in_app_iff. simpl.
      destruct (decide (Addr p = k)) as [<-|Hne].
      * rewrite lookup_insert_eq. simpl. tauto.
      * rewrite lookup_insert_ne by exact Hne. rewrite Hseen. tauto.
    + rewrite <- app_assoc, map_app. exact Hnd.
Qed.

(** X7: a page that lists proxies as [Proxy.String] prints them, one per
    line, with pairwise different addresses, is scraped back to exactly
    those proxies in that order. *)
Theorem Scrape_reads_printed (ps : list Proxy) :
  Forall scraped_shape ps ->
  NoDup (map Addr ps) ->
  Scrape (GetReplied StatusOK (Some (print_page ps))) = Some ps.
Proof.
  intros Hps Hnd. unfold Scrape. rewrite Z.eqb_refl. cbn [negb]. f_equal. rewrite (FindAll_print_page ps Hps).
  apply (collect_fresh ps ∅ [] Hps).
  - intros k. rewrite lookup_empty. simpl. split; [discriminate | tauto].
  - exact Hnd.
Qed.

Lemma Scrape_reads_printed_witness :
  Scrape (GetReplied StatusOK (Some (print_page [Sample.cand_a; Sample.cand_b]))) =
  Some [Sample.cand_a; Sample.cand_b].
Proof.
  apply (Scrape_reads_printed [Sample.cand_a; Sample.cand_b]).
  - assert (Hoct : forall s : string,
              forallb is_digit (list_ascii_of_string s) = true ->
              ((1 <=? String.length s) && (String.length s <=? 3))%nat = true ->
              octet_shape s).
    { intros s Hd Hl. apply andb_true_iff in Hl as [H1 H2].
      apply Nat.leb_le in H1. apply Nat.leb_le in H2.
      split; [|lia]. unfold all_digits. apply Forall_forall.
      intros x Hx. rewrite forallb_forall in Hd. apply Hd.
      now apply list_elem_of_In. }
    assert (Hport : forall s : string,
              forallb is_digit (list_ascii_of_string s) = true ->
              (1 <=? String.length s)%nat = true -> port_shape s).
    { intros s Hd Hl. apply Nat.leb_le in Hl.
      split; [|lia]. unfold all_digits. apply Forall_forall.
      intros x Hx. rewrite forallb_forall in Hd. apply Hd.
      now apply list_elem_of_In. }
    apply List.Forall_cons; [|apply List.Forall_cons; [|apply List.Forall_nil]].
    + split; [|split; [|split; reflexivity]].
      * exists "10"%string, "0"%string, "0"%string, "1"%string.
        split; [reflexivity|]. repeat split; apply Hoct; reflexivity.
      * apply Hport; reflexivity.
    + split; [|split; [|split; reflexivity]].
      * exists "10"%string, "0"%string, "0"%string, "2"%string.
        split; [reflexivity|]. repeat split; apply Hoct; reflexivity.
      * apply Hport; reflexivity.
  - simpl. apply NoDup_cons. split; [|apply NoDup_singleton].
    intros Hin. apply list_elem_of_singleton in Hin. discriminate Hin.
Defined.

End ScraperContracts.

(** ** The checker: the semaphore, progress, and what is probed *)

Section CheckerContracts.
Import GoStrings Checker.

Lemma run_sem_bound (net : Net) (cap : Z) (sched : list Action) :
  forall s s' : State,
  0 <= cap -> Z.of_nat (sem s) <= cap ->
  run net cap sched s = Some s' -> Z.of_nat (sem s') <= cap.
Proof.
  induction sched as [|a sched IH]; intros s s' Hcap Hs Hr; simpl in Hr.
  - now inversion Hr; subst.
  - destruct (exec net cap a s) as [s1|] eqn:He; [|discriminate].
    eapply IH; [exact Hcap | | exact Hr]. eapply exec_sem_bound; eauto.
Qed.

(** X8: at no point of any run are more than [maxConcurrent] workers
    between their send on [sem] and their receive from it, and the
    number buffered in [sem] is exactly the number of such workers. *)
Theorem semaphore_bounds_workers (net : Net) (proxies : list Proxy) (cap : Z)
  (sched : list Action) (s : State) :
  0 <= cap ->
  run net cap sched (init proxies) = Some s ->
  Z.of_nat (tokens (workers s)) <= cap /\ sem s = tokens (workers s).
Proof.
  intros Hcap Hr.
  destruct (run_counts_ok net cap sched _ _ (counts_ok_init proxies) Hr) as [_ Hsem].
  split; [|exact Hsem]. rewrite <- Hsem.
  eapply run_sem_bound; eauto. simpl. lia.
Qed.

Lemma semaphore_bounds_workers_witness :
  Z.of_nat (tokens (workers Sample.state_two)) <= 2 /\
  sem Sample.state_two = tokens (workers Sample.state_two).
Proof.
  apply (semaphore_bounds_workers Sample.net_open [Sample.cand_a; Sample.cand_b] 2
           Sample.sched_two).
  - lia.
  - vm_compute. reflexivity.
Defined.

(** *** No deadlock, and a bound on the length of a run *)

Lemma exec_enabled (net : Net) (cap : Z) (s : State) :
  1 <= cap -> counts_ok s -> finished s = false ->
  exists a s', exec net cap a s = Some s'.
Proof.
  intros Hcap [Hwg Hsem] Hf. destruct (workers s) as [|w ws] eqn:Hws.
  - simpl in Hwg, Hsem. unfold finished in Hf. rewrite Hwg in Hf.
    destruct (todo s) as [|[i p] rest] eqn:Ht; [discriminate|].
    exists ASpawn. simpl. rewrite Ht, Hsem.
    destruct (Z.ltb_spec (Z.of_nat 0) cap); [eauto | simpl in *; lia].
  - exists (AWorker 0). simpl. rewrite Hws. simpl. unfold worker_step.
    destruct (w_phase w) eqn:Hph.
    + destruct (LookupGeo _). eauto.
    + eauto.
    + eauto.
    + simpl in Hsem. unfold holds_token in Hsem. rewrite Hph in Hsem.
      rewrite Hsem. simpl. eauto.
    + simpl in Hwg. rewrite Hwg. eauto.
Qed.

Lemma ranks_app (l1 l2 : list Worker) :
  ranks (l1 ++ l2) = (ranks l1 + ranks l2)%nat.
Proof. induction l1 as [|w l1 IH]; simpl; [reflexivity|]. rewrite IH. lia. Qed.

Lemma exec_steps_left (net : Net) (cap : Z) (a : Action) (s s' : State) :
  exec net cap a s = Some s' -> (steps_left s' < steps_left s)%nat.
Proof.
  intros He. unfold steps_left. destruct a as [|k|k]; simpl in He.
  - destruct (todo s) as [|[i p] rest]; [discriminate|].
    destruct (Z.of_nat (sem s) <? cap); [|discriminate].
    inversion He; subst; clear He. simpl. rewrite ranks_app. simpl. lia.
  - destruct (todo s) as [|[i p] rest]; [discriminate|].
    destruct (workers s !! k) as [w|] eqn:Hk; [|discriminate].
    destruct (w_phase w) eqn:Hph; try discriminate.
    destruct (cap =? 0); [|discriminate].
    inversion He; subst; clear He.
    destruct (lookup_split _ _ _ Hk) as (l1 & l2 & Hws & Hins & _).
    simpl. rewrite Hins, Hws, !ranks_app. simpl.
    rewrite Hph. simpl. lia.
  - destruct (workers s !! k) as [w|] eqn:Hk; [|discriminate].
    destruct (lookup_split _ _ _ Hk) as (l1 & l2 & Hws & Hins & Hdel).
    unfold worker_step in He. destruct (w_phase w) eqn:Hph.
    + destruct (LookupGeo _) as [country city].
      inversion He; subst; clear He. simpl.
      rewrite Hins, Hws, !ranks_app. simpl. rewrite Hph.
      destruct (blocked _ _); simpl; lia.
    + inversion He; subst; clear He. simpl.
      rewrite Hins, Hws, !ranks_app. simpl. rewrite Hph.
      destruct (checkGoogle _); simpl; lia.
    + inversion He; subst; clear He. simpl.
      rewrite Hins, Hws, !ranks_app. simpl. rewrite Hph. simpl. lia.
    + destruct (sem s); [discriminate|].
      inversion He; subst; clear He. simpl.
      rewrite Hins, Hws, !ranks_app. simpl. rewrite Hph. simpl. lia.
    + destruct (wg s); [discriminate|].
      inversion He; subst; clear He. simpl.
      rewrite Hdel, Hws, !ranks_app. simpl. rewrite Hph. simpl. lia.
Qed.

Lemma run_steps_left (net : Net) (cap : Z) (sched : list Action) :
  forall s s' : State,
  run net cap sched s = Some s' ->
  (length sched + steps_left s' <= steps_left s)%nat.
Proof.
  induction sched as [|a sched IH]; intros s s' Hr; simpl in Hr.
  - inversion Hr; subst. simpl. lia.
  - destruct (exec net cap a s) as [s1|] eqn:He; [|discriminate].
    pose proof (exec_steps_left net cap a s s1 He).
    pose proof (IH s1 s' Hr). simpl. lia.
Qed.

Lemma run_to_finish (net : Net) (cap : Z) (n : nat) : forall s : State,
  1 <= cap -> counts_ok s -> (steps_left s <= n)%nat ->
  exists sched' s', run net cap sched' s = Some s' /\ finished s' = true.
Proof.
  induction n as [|n IH]; intros s Hcap Hc Hn;
    (destruct (finished s) eqn:Hf; [exists [], s; auto|]);
    destruct (exec_enabled net cap s Hcap Hc Hf) as (a & s1 & He);
    pose proof (exec_steps_left net cap a s s1 He) as Hlt.
  - lia.
  - destruct (IH s1 Hcap (exec_counts_ok net cap a s s1 Hc He)) as (sched' & s' & Hr & Hfin);
      [lia|].
    exists (a :: sched'), s'. simpl. rewrite He. auto.
Qed.

(** X9: with [maxConcurrent >= 1] the call cannot deadlock: in every
    state a run can reach, short of the return, some goroutine can
    take a step. *)
Theorem CheckProxies_no_deadlock (net : Net) (proxies : list Proxy) (cap : Z)
  (sched : list Action) (s : State) :
  1 <= cap ->
  run net cap sched (init proxies) = Some s ->
  finished s = false ->
  exists a s', exec net cap a s = Some s'.
Proof.
  intros Hcap Hr Hf. apply exec_enabled; [exact Hcap | | exact Hf].
  exact (run_counts_ok net cap sched _ _ (counts_ok_init proxies) Hr).
Qed.

Lemma CheckProxies_no_deadlock_witness :
  exists a s', exec Sample.net_open 2 a Sample.state_two = Some s'.
Proof.
  apply (CheckProxies_no_deadlock Sample.net_open [Sample.cand_a; Sample.cand_b] 2
           Sample.sched_two).
  - lia.
  - vm_compute. reflexivity.
  - reflexivity.
Defined.

(** X10: with [maxConcurrent >= 1] the call terminates: no run takes
    more than six scheduling steps per candidate, and whatever has
    happened so far, the run can be continued to the return. *)
Theorem CheckProxies_terminates (net : Net) (proxies : list Proxy) (cap : Z)
  (sched : list Action) (s : State) :
  1 <= cap ->
  run net cap sched (init proxies) = Some s ->
  (length sched <= 6 * length proxies)%nat /\
  exists sched' out,
    CheckProxies net proxies cap (sched ++ sched') = Some (Ok out).
Proof.
  intros Hcap Hr. split.
  - pose proof (run_steps_left net cap sched _ _ Hr) as Hb.
    unfold steps_left at 2 in Hb. simpl in Hb. rewrite length_imap in Hb. lia.
  - pose proof (run_counts_ok net cap sched _ _ (counts_ok_init proxies) Hr) as Hc.
    destruct (run_to_finish net cap (steps_left s) s Hcap Hc (Nat.le_refl _))
      as (sched' & s' & Hr' & Hfin).
    exists sched', (map snd (alive s')). unfold CheckProxies.
    destruct (Z.ltb_spec cap 0); [lia|].
    rewrite run_app, Hr, Hr', Hfin. reflexivity.
Qed.

Lemma CheckProxies_terminates_witness :
  (length Sample.sched_two <= 6 * length [Sample.cand_a; Sample.cand_b])%nat /\
  exists sched' out,
    CheckProxies Sample.net_open [Sample.cand_a; Sample.cand_b] 2
                 (Sample.sched_two ++ sched') = Some (Ok out).
Proof.
  apply (CheckProxies_terminates Sample.net_open [Sample.cand_a; Sample.cand_b] 2
           Sample.sched_two Sample.state_two).
  - lia.
  - vm_compute. reflexivity.
Defined.

(** *** Where the output comes from *)

Lemma returned_content (net : Net) (proxies : list Proxy) (mc : Z)
  (sched : list Action) (out : list Proxy) :
  CheckProxies net proxies mc sched = Some (Ok out) ->
  out ≡ₚ passing_in_order net proxies.
Proof.
  unfold CheckProxies. intros H.
  destruct (mc <? 0); [discriminate|].
  destruct (run net mc sched (init proxies)) as [s|] eqn:Hr; [|discriminate].
  destruct (finished s) eqn:Hf; [|discriminate].
  inversion H; subst; clear H.
  rewrite <- (finished_content net s (wg_counts_workers net mc sched proxies s Hr) Hf).
  rewrite <- content_init. eapply run_content_perm; eauto.
Qed.

Lemma verify_Some (net : Net) (i : nat) (p px : Proxy) :
  verify net i p = Some px ->
  IP px = IP p /\ Port px = Port p /\
  Country px = TrimSpace (LookupGeo (geo_net net i)).1 /\
  City px = TrimSpace (LookupGeo (geo_net net i)).2 /\
  is_blocked net i = false /\
  checkGoogle (probe_net net i) = true.
Proof.
  unfold verify, is_blocked, country_key, blocked.
  destruct (LookupGeo (geo_net net i)) as [country city]. simpl.
  destruct (map_get _ _); [discriminate|].
  destruct (checkGoogle _); [|discriminate].
  intros [= <-]. simpl. repeat split; reflexivity.
Qed.

Lemma omap_length_le {A B} (f : A -> option B) (l : list A) :
  (length (omap f l) <= length l)%nat.
Proof.
  induction l as [|x l IH]; [reflexivity|].
  change (omap f (x :: l)) with
    (match f x with Some y => y :: omap f l | None => omap f l end).
  destruct (f x); cbn [length]; lia.
Qed.

(** X11: every proxy [CheckProxies] returns is one of the candidates,
    with its IP and port untouched, the trimmed country and city that
    were looked up for it, a country that is not blocked and a probe
    that succeeded; and no more proxies are returned than were given. *)
Theorem CheckProxies_provenance (net : Net) (proxies : list Proxy) (mc : Z)
  (sched : list Action) (out : list Proxy) :
  CheckProxies net proxies mc sched = Some (Ok out) ->
  (length out <= length proxies)%nat /\
  forall px, In px out ->
    exists i p,
      proxies !! i = Some p /\
      IP px = IP p /\ Port px = Port p /\
      Country px = TrimSpace (LookupGeo (geo_net net i)).1 /\
      City px = TrimSpace (LookupGeo (geo_net net i)).2 /\
      is_blocked net i = false /\
      checkGoogle (probe_net net i) = true.
Proof.
  intros H. apply returned_content in H. split.
  - rewrite (Permutation_length H). unfold passing_in_order.
    etransitivity; [apply omap_length_le|]. now rewrite length_imap.
  - intros px Hin. apply list_elem_of_In in Hin. rewrite H in Hin.
    unfold passing_in_order in Hin.
    apply list_elem_of_omap in Hin as ([i p] & Hip & Hv).
    apply elem_of_lookup_imap in Hip as (j & q & Heq & Hl).
    inversion Heq; subst. simpl in Hv.
    exists j, q. split; [exact Hl|]. apply verify_Some. exact Hv.
Qed.

Lemma CheckProxies_provenance_witness :
  (length [Sample.ver_a; Sample.ver_c] <=
   length [Sample.cand_a; Sample.cand_b; Sample.cand_c])%nat /\
  forall px, In px [Sample.ver_a; Sample.ver_c] ->
    exists i p,
      [Sample.cand_a; Sample.cand_b; Sample.cand_c] !! i = Some p /\
      IP px = IP p /\ Port px = Port p /\
      Country px = TrimSpace (LookupGeo (geo_net Sample.net_geo i)).1 /\
      City px = TrimSpace (LookupGeo (geo_net Sample.net_geo i)).2 /\
      is_blocked Sample.net_geo i = false /\
      checkGoogle (probe_net Sample.net_geo i) = true.
Proof.
  apply (CheckProxies_provenance Sample.net_geo
           [Sample.cand_a; Sample.cand_b; Sample.cand_c] 1 Sample.sched_seq3).
  vm_compute. reflexivity.
Defined.

(** *** One probe per candidate *)

Lemma positions_imap (l : list Proxy) : forall k : nat,
  map fst (imap (fun i p => ((k + i)%nat, p)) l) = seq k (length l).
Proof.
  induction l as [|x l IH]; intros k; [reflexivity|].
  cbn [imap map fst length seq]. rewrite Nat.add_0_r. f_equal.
  rewrite <- (IH (S k)). f_equal. apply imap_ext. intros i y _. simpl.
  f_equal. lia.
Qed.

Lemma ledger_init (proxies : list Proxy) :
  ledger (init proxies) = seq 0 (length proxies).
Proof. unfold ledger, init. simpl. apply (positions_imap proxies 0). Qed.

Lemma awaiting_idle (w : Worker) :
  w_phase w = PAppend \/ w_phase w = PRelease \/ w_phase w = PDone ->
  awaiting_probe w = [].
Proof. unfold awaiting_probe. now intros [-> | [-> | ->]]. Qed.

(** A step moves a position along the ledger or drops it. *)
Lemma exec_ledger (net : Net) (cap : Z) (a : Action) (s s' : State) :
  exec net cap a s = Some s' -> ledger s' ⊆+ ledger s.
Proof.
  intros He. unfold ledger. destruct a as [|k|k]; simpl in He.
  - destruct (todo s) as [|[i p] rest] eqn:Ht; [discriminate|].
    destruct (Z.of_nat (sem s) <? cap); [|discriminate].
    inversion He; subst; clear He. simpl. rewrite flat_map_app. simpl.
    rewrite <- !app_assoc. reflexivity.
  - destruct (todo s) as [|[i p] rest] eqn:Ht; [discriminate|].
    destruct (workers s !! k) as [w|] eqn:Hk; [|discriminate].
    destruct (w_phase w) eqn:Hph; try discriminate.
    destruct (cap =? 0); [|discriminate].
    inversion He; subst; clear He.
    destruct (lookup_split _ _ _ Hk) as (l1 & l2 & Hws & Hins & _).
    simpl. rewrite Hins, Hws, ?flat_map_app. simpl. rewrite ?flat_map_app. simpl.
    rewrite (awaiting_idle w) by auto.
    rewrite <- !app_assoc. reflexivity.
  - destruct (workers s !! k) as [w|] eqn:Hk; [|discriminate].
    destruct (lookup_split _ _ _ Hk) as (l1 & l2 & Hws & Hins & Hdel).
    unfold worker_step in He. destruct (w_phase w) eqn:Hph.
    + destruct (LookupGeo _) as [country city].
      inversion He; subst; clear He. simpl.
      rewrite Hins, Hws, ?flat_map_app. simpl.
      apply submseteq_skips_l, submseteq_skips_r, submseteq_skips_l.
      unfold awaiting_probe. simpl. rewrite Hph.
      destruct (blocked _ _); simpl; [apply submseteq_cons|]; reflexivity.
    + inversion He; subst; clear He. simpl.
      rewrite Hins, Hws, ?flat_map_app. simpl.
      replace (awaiting_probe (set_phase _ w)) with (@nil nat)
        by (unfold awaiting_probe; simpl; now destruct (checkGoogle _)).
      replace (awaiting_probe w) with [w_idx w]
        by (unfold awaiting_probe; now rewrite Hph).
      apply Permutation_submseteq. rewrite <- !app_assoc. simpl.
      apply Permutation_app_head. apply Permutation_middle.
    + inversion He; subst; clear He. simpl.
      rewrite Hins, Hws, ?flat_map_app. simpl.
      rewrite (awaiting_idle w) by auto. reflexivity.
    + destruct (sem s); [discriminate|].
      inversion He; subst; clear He. simpl.
      rewrite Hins, Hws, ?flat_map_app. simpl.
      rewrite (awaiting_idle w) by auto. reflexivity.
    + destruct (wg s); [discriminate|].
      inversion He; subst; clear He. simpl.
      rewrite Hdel, Hws, ?flat_map_app. simpl.
      rewrite (awaiting_idle w) by auto. reflexivity.
Qed.

Lemma run_ledger (net : Net) (cap : Z) (sched : list Action) :
  forall s s' : State,
  run net cap sched s = Some s' -> ledger s' ⊆+ ledger s.
Proof.
  induction sched as [|a sched IH]; intros s s' Hr; simpl in Hr.
  - inversion Hr; subst. reflexivity.
  - destruct (exec net cap a s) as [s1|] eqn:He; [|discriminate].
    etransitivity; [apply (IH _ _ Hr) | eapply exec_ledger; eauto].
Qed.

(** X12: in any run [checkGoogle] is called at most once for each
    candidate, and only for positions of the input list. *)
Theorem one_probe_per_candidate (net : Net) (proxies : list Proxy) (cap : Z)
  (sched : list Action) (s : State) :
  run net cap sched (init proxies) = Some s ->
  NoDup (probed s) /\
  forall i, i ∈ probed s -> (i < length proxies)%nat.
Proof.
  intros Hr. pose proof (run_ledger net cap sched _ _ Hr) as Hl.
  rewrite ledger_init in Hl.
  assert (Hsub : probed s ⊆+ seq 0 (length proxies)).
  { etransitivity; [|exact Hl]. unfold ledger.
    apply sublist_submseteq, sublist_inserts_r. reflexivity. }
  split.
  - apply submseteq_sublist_l in Hsub as (l2 & Hsl & Hperm).
    eapply sublist_NoDup; [|exact Hsl]. rewrite Hperm. apply NoDup_seq.
  - intros i Hi. apply (elem_of_submseteq _ _ _ Hi) in Hsub.
    apply elem_of_seq in Hsub. lia.
Qed.

Lemma one_probe_per_candidate_witness :
  NoDup (probed Sample.state_seq3) /\
  forall i, i ∈ probed Sample.state_seq3 ->
            (i < length [Sample.cand_a; Sample.cand_b; Sample.cand_c])%nat.
Proof.
  apply (one_probe_per_candidate Sample.net_geo
           [Sample.cand_a; Sample.cand_b; Sample.cand_c] 1 Sample.sched_seq3).
  vm_compute. reflexivity.
Defined.

(** *** LookupGeo *)

Lemma strip_prefix_spec (pre s r : list ascii) :
  strip_prefix pre s = Some r -> s = pre ++ r.
Proof.
  revert s. induction pre as [|a pre IH]; intros s H; simpl in H.
  - now inversion H.
  - destruct s as [|b s]; [discriminate|].
    destruct (Ascii.eqb_spec a b) as [->|_]; [|discriminate].
    simpl. f_equal. apply IH. exact H.
Qed.

Lemma after_header_spec (s r : list ascii) :
  after_header s = Some r -> exists h, s = h ++ [CR; LF; CR; LF] ++ r.
Proof.
  induction s as [|c s IH]; intros H; [discriminate|].
  cbn [after_header] in H.
  destruct (strip_prefix [CR; LF; CR; LF] (c :: s)) as [rest|] eqn:Hp.
  - inversion H; subst. apply strip_prefix_spec in Hp. exists []. exact Hp.
  - destruct (IH H) as (h & ->). exists (c :: h). reflexivity.
Qed.

Lemma cut_comma_spec (s : list ascii) :
  match cut_comma s with
  | Some (l, r) => s = l ++ ","%char :: r /\ ~ In ","%char l
  | None => ~ In ","%char s
  end.
Proof.
  induction s as [|c s IH]; simpl; [tauto|].
  destruct (Ascii.eqb_spec c ","%char) as [->|Hne].
  - split; [reflexivity | tauto].
  - destruct (cut_comma s) as [[l r]|].
    + destruct IH as [-> Hl]. split; [reflexivity|]. simpl. intros [H|H]; auto.
    + intros [H|H]; auto.
Qed.

(** X13: from a non-empty reply [LookupGeo] returns a country without a
    comma, and the reply is a head (empty, or ending in a blank line)
    followed either by the country, a comma and the city, or by the
    country alone, the city then being empty. *)
Theorem LookupGeo_fields (data country city : string) :
  data <> ""%string ->
  LookupGeo (GeoRead data) = (country, city) ->
  ~ In ","%char (list_ascii_of_string country) /\
  exists hdr : string,
    (hdr = ""%string \/ exists h, hdr = (h ++ CRLF ++ CRLF)%string) /\
    (data = (hdr ++ country ++ "," ++ city)%string \/
     (data = (hdr ++ country)%string /\ city = ""%string)).
Proof.
  intros Hne H. unfold LookupGeo in H.
  destruct data as [|c0 data0]; [congruence|]. cbn [String.length Nat.eqb] in H.
  set (data := String c0 data0) in *.
  assert (Hhdr : exists hdr : string,
            (hdr = ""%string \/ exists h, hdr = (h ++ CRLF ++ CRLF)%string) /\
            list_ascii_of_string data =
            list_ascii_of_string hdr ++
            default (list_ascii_of_string data) (after_header (list_ascii_of_string data))).
  { destruct (after_header (list_ascii_of_string data)) as [r|] eqn:Ha.
    - destruct (after_header_spec _ _ Ha) as (h & Hs).
      exists (string_of_list_ascii h ++ CRLF ++ CRLF)%string. split; [eauto|].
      rewrite !list_ascii_of_string_app, list_ascii_of_string_of_list_ascii.
      rewrite Hs. simpl. rewrite <- app_assoc. reflexivity.
    - exists ""%string. split; [now left | reflexivity]. }
  destruct Hhdr as (hdr & Hshape & Hsplit).
  set (body := default (list_ascii_of_string data)
                 (after_header (list_ascii_of_string data))) in *.
  pose proof (cut_comma_spec body) as Hc.
  destruct (cut_comma body) as [[l r]|].
  - destruct Hc as [Hb Hl]. inversion H; subst country city.
    rewrite list_ascii_of_string_of_list_ascii. split; [exact Hl|].
    exists hdr. split; [exact Hshape|]. left.
    rewrite <- (string_of_list_ascii_of_string data), Hsplit, Hb.
    rewrite !string_of_list_ascii_app, string_of_list_ascii_of_string. reflexivity.
  - inversion H; subst country city.
    rewrite list_ascii_of_string_of_list_ascii. split; [exact Hc|].
    exists hdr. split; [exact Hshape|]. right. split; [|reflexivity].
    rewrite <- (string_of_list_ascii_of_string data), Hsplit.
    rewrite string_of_list_ascii_app, string_of_list_ascii_of_string. reflexivity.
Qed.

Lemma LookupGeo_fields_witness :
  ~ In ","%char (list_ascii_of_string " China") /\
  exists hdr : string,
    (hdr = ""%string \/ exists h, hdr = (h ++ CRLF ++ CRLF)%string) /\
    (Sample.http_200 " China,Beijing" = (hdr ++ " China" ++ "," ++ "Beijing")%string \/
     (Sample.http_200 " China,Beijing" = (hdr ++ " China")%string /\
      "Beijing"%string = ""%string)).
Proof.
  apply (LookupGeo_fields (Sample.http_200 " China,Beijing") " China" "Beijing").
  - discriminate.
  - vm_compute. reflexivity.
Defined.

(** X14: a candidate whose geo lookup fails (dial error, read error or
    an empty read) is not rejected for it: its country counts as not
    blocked, and it is returned as "Unknown" exactly when its probe
    succeeds. *)
Theorem geo_failure_does_not_reject (net : Net) (i : nat) (p : Proxy) :
  geo_net net i = GeoDialFailed \/ geo_net net i = GeoReadFailed \/
  geo_net net i = GeoRead "" ->
  is_blocked net i = false /\
  verify net i p =
    if checkGoogle (probe_net net i)
    then Some (mkProxy (IP p) (Port p) "Unknown" "") else None.
Proof.
  intros Hgeo. unfold is_blocked, country_key, verify, blocked.
  assert (Hl : LookupGeo (geo_net net i) = ("Unknown"%string, ""%string))
    by (destruct Hgeo as [-> | [-> | ->]]; reflexivity).
  rewrite Hl. split; reflexivity.
Qed.

Lemma geo_failure_does_not_reject_witness :
  is_blocked Sample.net_geo 2 = false /\
  verify Sample.net_geo 2 Sample.cand_c =
    if checkGoogle (probe_net Sample.net_geo 2)
    then Some (mkProxy (IP Sample.cand_c) (Port Sample.cand_c) "Unknown" "") else None.
Proof.
  apply (geo_failure_does_not_reject Sample.net_geo 2 Sample.cand_c).
  left. reflexivity.
Defined.

End CheckerContracts.

(** ** The SOCKS5 server: parsing, dialling, replies *)

Section DataplaneContracts.
Import Pool Dataplane.

Lemma index_nth {A} (s : list A) (i : Z) (d : A) :
  0 <= i < len s -> index s i = Ok (nth (Z.to_nat i) s d).
Proof.
  intros Hi. destruct (index_in_range s i Hi) as (x & -> & Hl).
  now rewrite (nth_lookup_Some _ _ d _ Hl).
Qed.

Lemma slice_in_range {A} (s : list A) (lo hi : Z) :
  0 <= lo <= hi -> hi <= len s ->
  slice s lo hi = Ok (take (Z.to_nat (hi - lo)) (drop (Z.to_nat lo) s)).
Proof.
  intros H1 H2. unfold slice.
  destruct (Z.ltb_spec lo 0); [lia|]. destruct (Z.ltb_spec hi lo); [lia|].
  destruct (Z.ltb_spec (len s) hi); [lia|]. reflexivity.
Qed.

Lemma lor_shift (hi lo : Z) :
  0 <= lo < 256 -> Z.lor (Z.shiftl hi 8) lo = hi * 256 + lo.
Proof.
  intros Hlo. rewrite Z.shiftl_mul_pow2 by lia.
  rewrite <- Z.lxor_lor, <- Z.add_nocarry_lxor; try reflexivity.
  all: apply Z.bits_inj'; intros n Hn; rewrite Z.land_spec, Z.bits_0;
    destruct (Z_lt_dec n 8) as [Hlt|Hge];
    [ rewrite Z.mul_pow2_bits_low by lia; reflexivity
    | rewrite andb_comm;
      destruct (Z.eq_dec lo 0) as [->|Hnz]; [now rewrite Z.bits_0|];
      rewrite (Z.bits_above_log2 lo n); [reflexivity | lia |];
      apply Z.log2_lt_pow2; [lia|];
      apply Z.lt_le_trans with (2 ^ 8); [lia | apply Z.pow_le_mono_r; lia] ].
Qed.

Lemma byte_nth (buf : list Z) (i : nat) :
  Forall is_byte buf -> 0 <= nth i buf 0 <= 255.
Proof.
  intros Hb. destruct (nth_lookup_or_length buf i 0) as [Hl|Hl].
  - apply (Forall_lookup_1 _ _ _ _ Hb Hl).
  - rewrite nth_overflow by lia. lia.
Qed.

Lemma parseTarget_cases (net : Net) (buf : list Z) :
  Forall is_byte buf ->
  exists r,
    parseTarget net buf = Ok r /\
    (is_Some r <->
     7 <= len buf /\
     ((nth 3 buf 0 = atypIPv4 /\ 10 <= len buf) \/
      (nth 3 buf 0 = atypDomain /\ 7 + nth 4 buf 0 <= len buf) \/
      (nth 3 buf 0 = atypIPv6 /\ 22 <= len buf))).
Proof.
  intros Hb. unfold parseTarget, atypIPv4, atypDomain, atypIPv6.
  pose proof (byte_nth buf 4 Hb) as H4.
  destruct (Z.ltb_spec (len buf) 7) as [Hs|Hl].
  { eexists. split; [reflexivity|]. split; [intros [? ?]; discriminate | lia]. }
  rewrite (index_nth buf 3 0) by lia. cbn [mbind Res_bind].
  change (Z.to_nat 3) with 3%nat.
  destruct (Z.eqb_spec (nth 3 buf 0) 1) as [E1|E1].
  - destruct (Z.ltb_spec (len buf) 10).
    + eexists. split; [reflexivity|]. split; [intros [? ?]; discriminate | lia].
    + rewrite (index_nth buf 4 0), (index_nth buf 5 0), (index_nth buf 6 0),
        (index_nth buf 7 0) by lia. cbn [mbind Res_bind].
      rewrite (index_nth buf 8 0), (index_nth buf (8 + 1) 0) by lia.
      cbn [mbind Res_bind].
      eexists. split; [reflexivity|]. split; [lia | eauto].
  - destruct (Z.eqb_spec (nth 3 buf 0) 3) as [E3|E3].
    + rewrite (index_nth buf 4 0) by lia. cbn [mbind Res_bind].
      change (Z.to_nat 4) with 4%nat.
      destruct (Z.ltb_spec (len buf) (5 + nth 4 buf 0 + 2)).
      * eexists. split; [reflexivity|]. split; [intros [? ?]; discriminate | lia].
      * rewrite slice_in_range by lia. cbn [mbind Res_bind].
        rewrite (index_nth buf (5 + nth 4 buf 0) 0),
          (index_nth buf (5 + nth 4 buf 0 + 1) 0) by lia.
        cbn [mbind Res_bind].
        eexists. split; [reflexivity|]. split; [lia | eauto].
    + destruct (Z.eqb_spec (nth 3 buf 0) 4) as [E4|E4].
      * destruct (Z.ltb_spec (len buf) 22).
        -- eexists. split; [reflexivity|]. split; [intros [? ?]; discriminate | lia].
        -- rewrite slice_in_range by lia. cbn [mbind Res_bind].
           rewrite (index_nth buf 20 0), (index_nth buf (20 + 1) 0) by lia.
           cbn [mbind Res_bind].
           eexists. split; [reflexivity|]. split; [lia | eauto].
      * eexists. split; [reflexivity|]. split; [intros [? ?]; discriminate | lia].
Qed.

(** X15: on a buffer of bytes [parseTarget] never panics, and it
    returns an address exactly when the buffer has at least 7 bytes and
    is long enough for its address type: 10 bytes for IPv4, 7 plus the
    name's length for a domain name, 22 for IPv6; any other address type
    is an error. *)
Theorem parseTarget_accepts (net : Net) (buf : list Z) :
  Forall is_byte buf ->
  exists r,
    parseTarget net buf = Ok r /\
    (is_Some r <->
     7 <= len buf /\
     ((nth 3 buf 0 = atypIPv4 /\ 10 <= len buf) \/
      (nth 3 buf 0 = atypDomain /\ 7 + nth 4 buf 0 <= len buf) \/
      (nth 3 buf 0 = atypIPv6 /\ 22 <= len buf))).
Proof. exact (parseTarget_cases net buf). Qed.

Lemma parseTarget_accepts_witness :
  exists r,
    parseTarget Sample.net_failover Sample.connect_example = Ok r /\
    (is_Some r <->
     7 <= len Sample.connect_example /\
     ((nth 3 Sample.connect_example 0 = atypIPv4 /\ 10 <= len Sample.connect_example) \/
      (nth 3 Sample.connect_example 0 = atypDomain /\
       7 + nth 4 Sample.connect_example 0 <= len Sample.connect_example) \/
      (nth 3 Sample.connect_example 0 = atypIPv6 /\ 22 <= len Sample.connect_example))).
Proof.
  apply (parseTarget_accepts Sample.net_failover Sample.connect_example).
  unfold Sample.connect_example, is_byte.
  repeat (apply List.Forall_cons; [lia|]). apply List.Forall_nil.
Defined.

(** X16: an IPv4 request is read as dotted decimal and a big-endian
    port, whatever follows its first ten bytes. *)
Theorem parseTarget_ipv4 (net : Net) (ver cmd rsv a b c d hi lo : Z) (rest : list Z) :
  is_byte lo ->
  parseTarget net (ver :: cmd :: rsv :: atypIPv4 :: a :: b :: c :: d :: hi :: lo :: rest) =
  Ok (Some ((pretty a ++ "." ++ pretty b ++ "." ++ pretty c ++ "." ++ pretty d) ++
            ":" ++ pretty (hi * 256 + lo))%string).
Proof.
  intros Hlo. unfold parseTarget.
  set (buf := ver :: cmd :: rsv :: atypIPv4 :: a :: b :: c :: d :: hi :: lo :: rest).
  assert (Hlen : 10 <= len buf) by (unfold len, buf; simpl length; lia).
  destruct (Z.ltb_spec (len buf) 7); [lia|].
  rewrite (index_nth buf 3 0) by lia. cbn [mbind Res_bind]. simpl (nth _ buf 0).
  cbn [Z.eqb atypIPv4 Pos.eqb].
  destruct (Z.ltb_spec (len buf) 10); [lia|].
  rewrite (index_nth buf 4 0), (index_nth buf 5 0), (index_nth buf 6 0),
    (index_nth buf 7 0) by lia. cbn [mbind Res_bind].
  rewrite (index_nth buf 8 0), (index_nth buf (8 + 1) 0) by lia.
  cbn [mbind Res_bind]. simpl (nth _ buf 0).
  rewrite lor_shift by (unfold is_byte in Hlo; lia). reflexivity.
Qed.

Lemma parseTarget_ipv4_witness :
  parseTarget Sample.net_failover [5; 1; 0; atypIPv4; 192; 168; 1; 20; 31; 144] =
  Ok (Some ((pretty 192 ++ "." ++ pretty 168 ++ "." ++ pretty 1 ++ "." ++ pretty 20) ++
            ":" ++ pretty (31 * 256 + 144))%string).
Proof.
  apply (parseTarget_ipv4 Sample.net_failover 5 1 0 192 168 1 20 31 144 []).
  unfold is_byte. lia.
Defined.

(** *** dialViaSOCKS5 *)

Lemma byte_string_host_bytes (host : string) :
  byte_string (host_bytes host) = host.
Proof.
  unfold byte_string, host_bytes. rewrite map_map.
  rewrite <- (string_of_list_ascii_of_string host) at 2. f_equal.
  rewrite <- (map_id (list_ascii_of_string host)) at 2.
  apply map_ext. intros c. now rewrite N2Z.id, ascii_N_embedding.
Qed.

Lemma length_host_bytes (host : string) :
  length (host_bytes host) = String.length host.
Proof.
  unfold host_bytes. rewrite length_map.
  now rewrite <- length_string_of_list_ascii, string_of_list_ascii_of_string.
Qed.

Lemma port_bytes (port : Z) :
  0 <= port <= 65535 ->
  to_byte (Z.shiftr port 8) * 256 + to_byte (Z.land port 255) = port /\
  is_byte (to_byte (Z.land port 255)).
Proof.
  intros Hp. unfold to_byte, is_byte.
  rewrite Z.shiftr_div_pow2 by lia.
  change 255 with (Z.ones 8). rewrite Z.land_ones by lia.
  change (2 ^ 8) with 256.
  rewrite Z.mod_mod by lia.
  rewrite (Z.mod_small (port / 256)).
  - pose proof (Z.div_mod port 256 ltac:(lia)) as Hdm.
    pose proof (Z.mod_pos_bound port 256 ltac:(lia)) as Hmb.
    change (Z.ones 8) with 255. lia.
  - split; [apply Z.div_pos; lia | apply Z.div_lt_upper_bound; lia].
Qed.

(** A domain-name request, read back. *)
Lemma parseTarget_domain_request (net : Net) (host : string) (ph pl : Z) :
  (String.length host <= 255)%nat -> is_byte pl ->
  parseTarget net
    ((([5; 1; 0] ++ [atypDomain; to_byte (Z.of_nat (String.length host))]) ++
      host_bytes host) ++ [ph; pl]) =
  Ok (Some (host ++ ":" ++ pretty (ph * 256 + pl))%string).
Proof.
  intros Hlen Hpl. unfold to_byte. rewrite Z.mod_small by lia.
  rewrite <- !app_assoc. cbn [app].
  set (n := String.length host) in *.
  set (hb := host_bytes host).
  assert (Hhb : length hb = n) by apply length_host_bytes.
  set (buf := 5 :: 1 :: 0 :: atypDomain :: Z.of_nat n :: hb ++ [ph; pl]).
  assert (Hl : len buf = 7 + Z.of_nat n)
    by (unfold len, buf; simpl length; rewrite length_app, Hhb; simpl; lia).
  unfold parseTarget. destruct (Z.ltb_spec (len buf) 7); [lia|].
  rewrite (index_nth buf 3 0) by lia. cbn [mbind Res_bind]. simpl (nth _ buf 0).
  cbn [Z.eqb atypIPv4 atypDomain Pos.eqb].
  rewrite (index_nth buf 4 0) by lia. cbn [mbind Res_bind]. simpl (nth _ buf 0).
  destruct (Z.ltb_spec (len buf) (5 + Z.of_nat n + 2)); [lia|].
  rewrite slice_in_range by lia. cbn [mbind Res_bind].
  rewrite (index_nth buf (5 + Z.of_nat n) 0),
    (index_nth buf (5 + Z.of_nat n + 1) 0) by lia.
  cbn [mbind Res_bind].
  replace (Z.to_nat (5 + Z.of_nat n - 5)) with (length hb) by lia.
  replace (Z.to_nat (5 + Z.of_nat n)) with (5 + length hb)%nat by lia.
  replace (Z.to_nat (5 + Z.of_nat n + 1)) with (5 + (length hb + 1))%nat by lia.
  change (Z.to_nat 5) with 5%nat. unfold buf.
  cbn [drop nth Nat.add]. rewrite drop_0, take_app_length.
  rewrite !app_nth2 by lia.
  replace (length hb - length hb)%nat with 0%nat by lia.
  replace (length hb + 1 - length hb)%nat with 1%nat by lia.
  cbn [nth]. rewrite lor_shift by (unfold is_byte in Hpl; lia).
  unfold hb. rewrite byte_string_host_bytes. reflexivity.
Qed.

(** X17: when [dialViaSOCKS5] gets as far as its connect request for a
    host that is a name of at most 255 bytes and a port in 0..65535, the
    request it writes is one that [parseTarget] reads back as that host
    and port. *)
Theorem dial_request_round_trip (lib : Lib) (up : UpNet) (net : Net)
  (tgt host portStr : string) (b1 : Z) :
  up_dial_ok up = true ->
  up_greeting up = Some (5, b1) ->
  SplitHostPort lib tgt = Some (host, portStr) ->
  ParseIP lib host = None ->
  (String.length host <= 255)%nat ->
  0 <= Sscan_int lib portStr <= 65535 ->
  exists req rest,
    (dialViaSOCKS5 lib up tgt).2 = UpWrite [5; 1; 0] :: UpWrite req :: rest /\
    parseTarget net req =
      Ok (Some (host ++ ":" ++ pretty (Sscan_int lib portStr))%string).
Proof.
  intros Hd Hg Hs Hip Hlen Hport. unfold dialViaSOCKS5.
  rewrite Hd, Hg, Hs. cbn [negb Z.eqb Pos.eqb].
  destruct (port_bytes _ Hport) as [Hsum Hpl].
  assert (Hreq : parseTarget net (connect_request lib host (Sscan_int lib portStr)) =
                 Ok (Some (host ++ ":" ++ pretty (Sscan_int lib portStr))%string)).
  { unfold connect_request. rewrite Hip.
    rewrite (parseTarget_domain_request net host _ _ Hlen Hpl). now rewrite Hsum. }
  destruct (up_reply up) as [resp|];
    [destruct ((len resp <? 2) || negb (nth 1 resp 0 =? 0))|];
    eexists _, _; (split; [reflexivity | exact Hreq]).
Qed.

Lemma dial_request_round_trip_witness :
  exists req rest,
    (dialViaSOCKS5 (mkLib (fun _ => Some ("example.com"%string, "80"%string))
                          (fun _ => 80) (fun _ => None))
                   (mkUpNet true (Some (5, 0)) (Some [5; 0; 0; 1; 0; 0; 0; 0; 0; 0]))
                   "example.com:80").2 =
      UpWrite [5; 1; 0] :: UpWrite req :: rest /\
    parseTarget Sample.net_failover req =
      Ok (Some ("example.com" ++ ":" ++ pretty 80)%string).
Proof.
  apply (dial_request_round_trip
           (mkLib (fun _ => Some ("example.com"%string, "80"%string))
                  (fun _ => 80) (fun _ => None))
           (mkUpNet true (Some (5, 0)) (Some [5; 0; 0; 1; 0; 0; 0; 0; 0; 0]))
           Sample.net_failover "example.com:80" "example.com" "80" 0);
    try reflexivity.
  - simpl. lia.
  - simpl. lia.
Defined.

(** X18: [dialViaSOCKS5] returns a connection only after the upstream
    answered the greeting with version 5 and the request with status 0;
    then it has cleared the deadline and not closed the connection.
    When it fails after the dial succeeded, closing the connection is
    the last thing it does. *)
Theorem dial_closes_on_failure (lib : Lib) (up : UpNet) (tgt : string) :
  let r := dialViaSOCKS5 lib up tgt in
  (r.1 = true ->
   last r.2 = Some UpClearDeadline /\ ~ In UpClose r.2 /\
   (exists b1, up_greeting up = Some (5, b1)) /\
   (exists resp, up_reply up = Some resp /\ 2 <= len resp /\ nth 1 resp 0 = 0)) /\
  (r.1 = false ->
   ~ In UpClearDeadline r.2 /\
   if up_dial_ok up then last r.2 = Some UpClose else r.2 = []).
Proof.
  unfold dialViaSOCKS5.
  destruct (up_dial_ok up); cbn [negb];
    [|cbn; split; [discriminate | intros _; split; [tauto | reflexivity]]].
  destruct (up_greeting up) as [[b0 b1]|];
    [|cbn; split; [discriminate | intros _; split; [|reflexivity]];
      intros [H|[H|[]]]; discriminate].
  destruct (Z.eqb_spec b0 5) as [->|Hne]; cbn [negb];
    [|cbn; split; [discriminate | intros _; split; [|reflexivity]];
      intros [H|[H|[]]]; discriminate].
  destruct (SplitHostPort lib tgt) as [[host portStr]|];
    [|cbn; split; [discriminate | intros _; split; [|reflexivity]];
      intros [H|[H|[]]]; discriminate].
  destruct (up_reply up) as [resp|];
    [|cbn; split; [discriminate | intros _; split; [|reflexivity]];
      intros [H|[H|[H|[]]]]; discriminate].
  destruct (Z.ltb_spec (len resp) 2) as [Hs|Hl]; cbn [orb];
    [cbn; split; [discriminate | intros _; split; [|reflexivity]];
      intros [H|[H|[H|[]]]]; discriminate|].
  destruct (Z.eqb_spec (nth 1 resp 0) 0) as [Hz|Hnz]; cbn [negb].
  - cbn. split; [|discriminate]. intros _. split; [reflexivity|].
    split; [intros [H|[H|[H|[]]]]; discriminate|].
    split; [eauto|]. exists resp. auto.
  - cbn. split; [discriminate|]. intros _. split; [|reflexivity].
    intros [H|[H|[H|[]]]]; discriminate.
Qed.

(** *** handleConn as a whole *)






(** *** Failover and the active index *)

Lemma Current_at (ps : list Proxy) (c : Z) (px : Proxy) :
  0 <= c < len ps -> ps !! Z.to_nat c = Some px ->
  Current (mkPool ps c) = Ok (px, true).
Proof.
  intros Hc Hl. unfold Current. cbn [proxies current].
  destruct (Z.eqb_spec (len ps) 0); [lia|].
  destruct (index_in_range ps c Hc) as (px' & -> & Hl'). cbn. congruence.
Qed.

(** One turn of the loop when no other goroutine touches the pool. *)
Lemma attempt_quiet (net : Net) (tgt : string) (left i : nat) (ps : list Proxy) (c : Z) :
  slice_ok ps -> 0 <= c < len ps -> others net i = [] ->
  exists px,
    let c' := if (i =? 0)%nat then c else (c + 1) mod len ps in
    ps !! Z.to_nat c' = Some px /\ 0 <= c' < len ps /\
    upstream_attempts net tgt (S left) i (mkPool ps c) =
    let k := if (i =? 0)%nat then CallCurrent else CallSwitchNext in
    if dial net i px tgt then
      Ok (EvPool k (len ps) px true :: EvDial px tgt true :: sendReply 0 :: relay,
          mkPool ps c')
    else
      rest ← upstream_attempts net tgt left (S i) (mkPool ps c');
      Ok (EvPool k (len ps) px true :: EvDial px tgt false :: rest.1, rest.2).
Proof.
  intros Hs Hc Hq. cbn [upstream_attempts]. rewrite Hq. cbn [run_ops mbind Res_bind].
  assert (Hinv : pool_inv (mkPool ps c)) by (split; [exact Hs | intros _; exact Hc]).
  assert (Hn : 0 < Size (mkPool ps c)) by (unfold Size; simpl; lia).
  destruct (i =? 0)%nat.
  - destruct (index_in_range ps c Hc) as (px & _ & Hl).
    rewrite (Current_at ps c px Hc Hl). cbn. exists px. auto.
  - destruct (SwitchNext_step _ Hinv Hn) as (px & -> & Hl). cbn.
    unfold Size in *. cbn [proxies current] in *.
    exists px. split; [exact Hl|]. split; [apply Z.mod_pos_bound; lia | reflexivity].
Qed.

Lemma accept_request_hello (net : Net) (hello : list Event) (tgt : string) :
  accept_request net = Ok (hello, Some tgt) -> hello = [EvWrite [5; 0]].
Proof.
  unfold accept_request.
  destruct (greeting net) as [|g]; [discriminate|].
  destruct (len g <? 2); [discriminate|].
  destruct (index g 0) as [b0|]; [|discriminate]. cbn [mbind Res_bind].
  destruct (negb (b0 =? socks5Version)); [discriminate|].
  destruct (request net) as [|rq]; [discriminate|].
  destruct (len rq <? 7); [discriminate|].
  destruct (index rq 1) as [b1|]; [|discriminate]. cbn [mbind Res_bind].
  destruct (negb (b1 =? cmdConnect)); [discriminate|].
  destruct (parseTarget net rq) as [[t|]|]; cbn [mbind Res_bind]; try discriminate.
  now intros [= <- _].
Qed.

Ltac settle_index Hc :=
  eexists _, _; split; [reflexivity|]; cbn;
  split; [reflexivity|]; split; [lia|];
  split; [first [ rewrite Z.add_0_r; symmetry; apply Z.mod_small; exact Hc
                | reflexivity
                | rewrite Zplus_mod_idemp_l; f_equal; lia ]|];
  intros d [= <-]; apply Current_at; assumption.

(** X20: when no other goroutine touches a non-empty pool during the
    request, the handler dials between one and three upstreams, keeps
    the proxy sequence, and leaves the active index advanced by the
    number of dials less one; the active proxy is then the upstream it
    dialled last, also when every dial failed. *)
Theorem failover_advances_index (net : Net) (p : ProxyPool) (hello : list Event)
  (tgt : string) :
  reachable p -> 0 < Size p ->
  (forall i, others net i = []) ->
  accept_request net = Ok (hello, Some tgt) ->
  exists tr p',
    handleConn net p = Ok (tr, p') /\
    proxies p' = proxies p /\
    (1 <= length (dials tr) <= 3)%nat /\
    CurrentIndex p' =
      (CurrentIndex p + Z.of_nat (length (dials tr) - 1)) mod Size p /\
    (forall d, last (dials tr) = Some d -> Current p' = Ok (via d, true)).
Proof.
  intros Hr Hn Hq Hacc. destruct (reachable_inv p Hr) as [Hs Hc].
  pose proof (accept_request_hello net hello tgt Hacc) as ->.
  specialize (Hc Hn). destruct p as [ps c]. unfold Size, CurrentIndex in *.
  cbn [proxies current] in *.
  unfold handleConn, maxRetries. rewrite Hacc. cbn [mbind Res_bind fst snd].
  destruct (attempt_quiet net tgt 2 0 ps c Hs Hc (Hq 0%nat)) as (px1 & Hl1 & Hc1 & ->).
  cbn [Nat.eqb] in *. cbn zeta. destruct (dial net 0 px1 tgt); [settle_index Hc|].
  destruct (attempt_quiet net tgt 1 1 ps c Hs Hc1 (Hq 1%nat)) as (px2 & Hl2 & Hc2 & ->).
  cbn [Nat.eqb] in *. cbn zeta. destruct (dial net 1 px2 tgt); [settle_index Hc|].
  destruct (attempt_quiet net tgt 0 2 ps _ Hs Hc2 (Hq 2%nat)) as (px3 & Hl3 & Hc3 & ->).
  cbn [Nat.eqb] in *. cbn zeta. destruct (dial net 2 px3 tgt); settle_index Hc.
Qed.

Lemma failover_advances_index_witness :
  exists tr p',
    handleConn Sample.net_exhaust Sample.pool3 = Ok (tr, p') /\
    proxies p' = proxies Sample.pool3 /\
    (1 <= length (dials tr) <= 3)%nat /\
    CurrentIndex p' =
      (CurrentIndex Sample.pool3 + Z.of_nat (length (dials tr) - 1)) mod Size Sample.pool3 /\
    (forall d, last (dials tr) = Some d -> Current p' = Ok (via d, true)).
Proof.
  apply (failover_advances_index Sample.net_exhaust Sample.pool3
           [EvWrite [5; 0]] "example.com:80").
  - exact reachable_sample.
  - reflexivity.
  - reflexivity.
  - vm_compute. reflexivity.
Defined.

End DataplaneContracts.

(** ** The status surface and the refresh signal *)

Ltac settle_switch :=
  repeat split; auto; try discriminate; try lia; try congruence;
  try (intros [? ?]; first [congruence | lia]);
  try (intros ? [= <-]; lia);
  try (intros; congruence).

Section StatusContracts.
Import Pool Orchestrator Status.

(** X21: when nothing touches the pool during the request, the status
    data are consistent: [Total] is the pool's size, row [i] describes
    proxy [i] and is marked active exactly when [i] is the active index,
    and [ActiveProxy] is the address of that row ("None" and "-" for an
    empty pool). *)
Theorem getStatusData_consistent (format : Z -> string) (tm : Timing) (p : ProxyPool) :
  reachable p ->
  exists d,
    getStatusData format tm [] [] p = Ok d /\
    Total d = Size p /\
    length (Proxies d) = length (proxies p) /\
    (forall i st, Proxies d !! i = Some st ->
       exists q, proxies p !! i = Some q /\
                 ps_Addr st = Addr q /\ ps_Country st = Country q /\
                 ps_City st = City q /\
                 (ps_Active st = true <-> Z.of_nat i = CurrentIndex p)) /\
    (Size p = 0 -> ActiveProxy d = "None"%string /\ ActiveRegion d = "-"%string) /\
    (0 < Size p ->
       exists st, Proxies d !! Z.to_nat (CurrentIndex p) = Some st /\
                  ps_Active st = true /\ ActiveProxy d = ps_Addr st).
Proof.
  intros Hr. apply reachable_inv in Hr as Hinv.
  unfold getStatusData. cbn [run_ops mbind Res_bind].
  destruct (Current_spec p Hinv) as (px & Hcur). rewrite Hcur. cbn [mbind Res_bind].
  eexists. split; [reflexivity|]. cbn [Total Proxies ActiveProxy ActiveRegion].
  split; [reflexivity|]. split; [apply length_imap|].
  split; [|split].
  - intros i st Hst. rewrite list_lookup_imap in Hst. unfold All in Hst.
    destruct (proxies p !! i) as [q|] eqn:Hq; cbn in Hst; [|discriminate].
    inversion Hst; subst. exists q. cbn. repeat split; auto.
    + intros H. now apply Z.eqb_eq in H.
    + intros H. now apply Z.eqb_eq.
  - intros Hz. rewrite Hz. cbn. auto.
  - intros Hn. destruct Hinv as [_ Hc]. specialize (Hc Hn). unfold Size in *.
    destruct (index_in_range (proxies p) (current p) Hc) as (q & Hq & Hl).
    unfold Current in Hcur.
    destruct (Z.eqb_spec (len (proxies p)) 0) as [E|E]; [lia|].
    rewrite Hq in Hcur. cbn in Hcur. inversion Hcur; subst q.
    eexists. rewrite list_lookup_imap. unfold All, CurrentIndex. rewrite Hl.
    split; [reflexivity|]. cbn. split; [|reflexivity].
    apply Z.eqb_eq. lia.
Qed.

Lemma getStatusData_consistent_witness :
  exists d,
    getStatusData (fun _ => "2026-01-01 08:00:00"%string) (mkTiming 400 800) [] []
                  Sample.pool3 = Ok d /\
    Total d = Size Sample.pool3 /\
    length (Proxies d) = length (proxies Sample.pool3) /\
    (forall i st, Proxies d !! i = Some st ->
       exists q, proxies Sample.pool3 !! i = Some q /\
                 ps_Addr st = Addr q /\ ps_Country st = Country q /\
                 ps_City st = City q /\
                 (ps_Active st = true <-> Z.of_nat i = CurrentIndex Sample.pool3)) /\
    (Size Sample.pool3 = 0 ->
       ActiveProxy d = "None"%string /\ ActiveRegion d = "-"%string) /\
    (0 < Size Sample.pool3 ->
       exists st, Proxies d !! Z.to_nat (CurrentIndex Sample.pool3) = Some st /\
                  ps_Active st = true /\ ActiveProxy d = ps_Addr st).
Proof.
  apply (getStatusData_consistent _ (mkTiming 400 800) Sample.pool3).
  exact reachable_sample.
Defined.

(** X22: [handleSwitch] answers 200, 400 or 503 and never changes the
    proxy sequence. With any answer but 200 the pool is untouched. 200
    with an index means that index is now active; 200 without one means
    the index moved one step round. 503 comes exactly for a switch
    without index on an empty pool, 400 exactly for an index that does
    not parse or is out of range. *)
Theorem handleSwitch_contract (Atoi : string -> option Z) (indexStr : string)
  (p : ProxyPool) :
  reachable p ->
  exists code body p',
    handleSwitch Atoi indexStr p = Ok (code, body, p') /\
    proxies p' = proxies p /\
    (code = 200 \/ code = 400 \/ code = 503) /\
    (code <> 200 -> p' = p) /\
    (code = 200 ->
       0 <= CurrentIndex p' < Size p /\
       (indexStr <> ""%string -> Atoi indexStr = Some (CurrentIndex p')) /\
       (indexStr = ""%string ->
          CurrentIndex p' = (CurrentIndex p + 1) mod Size p)) /\
    (code = 503 <-> indexStr = ""%string /\ Size p = 0) /\
    (code = 400 <->
       indexStr <> ""%string /\
       forall i, Atoi indexStr = Some i -> ~ (0 <= i < Size p)).
Proof.
  intros Hr. apply reachable_inv in Hr as Hinv. unfold handleSwitch.
  unfold StatusOK, StatusBadRequest, StatusServiceUnavailable.
  destruct (String.eqb_spec indexStr "") as [->|Hne]; cbn [negb].
  - destruct (Z.eq_dec (Size p) 0) as [E|E].
    + rewrite (SwitchNext_empty p E). cbn.
      eexists _, _, _. split; [reflexivity|]. settle_switch.
    + assert (Hn : 0 < Size p)
        by (pose proof (len_nonneg (proxies p)); unfold Size in *; lia).
      destruct (SwitchNext_step p Hinv Hn) as (px & -> & _). cbn.
      eexists _, _, _. split; [reflexivity|]. settle_switch.
      all: try (apply Z.mod_pos_bound; lia).
  - destruct (Atoi indexStr) as [i|] eqn:Hi.
    + destruct (Z_le_dec 0 i) as [H0|H0]; [destruct (Z_lt_dec i (Size p)) as [H1|H1]|].
      * destruct (SwitchTo_in_range i p (conj H0 H1)) as (px & -> & _). cbn.
        eexists _, _, _. split; [reflexivity|]. settle_switch.
        intros [_ H]. exfalso. apply (H i eq_refl). lia.
      * rewrite SwitchTo_out_of_range by lia. cbn.
        eexists _, _, _. split; [reflexivity|]. settle_switch.
      * rewrite SwitchTo_out_of_range by lia. cbn.
        eexists _, _, _. split; [reflexivity|]. settle_switch.
    + eexists _, _, _. split; [reflexivity|]. settle_switch.
Qed.

Lemma handleSwitch_contract_witness :
  exists code body p',
    handleSwitch (fun _ => Some 2) "2" Sample.pool3 = Ok (code, body, p') /\
    proxies p' = proxies Sample.pool3 /\
    (code = 200 \/ code = 400 \/ code = 503) /\
    (code <> 200 -> p' = Sample.pool3) /\
    (code = 200 ->
       0 <= CurrentIndex p' < Size Sample.pool3 /\
       ("2"%string <> ""%string -> (fun _ : string => Some 2) "2"%string = Some (CurrentIndex p')) /\
       ("2"%string = ""%string ->
          CurrentIndex p' = (CurrentIndex Sample.pool3 + 1) mod Size Sample.pool3)) /\
    (code = 503 <-> "2"%string = ""%string /\ Size Sample.pool3 = 0) /\
    (code = 400 <->
       "2"%string <> ""%string /\
       forall i, (fun _ : string => Some 2) "2"%string = Some i ->
                 ~ (0 <= i < Size Sample.pool3)).
Proof.
  apply (handleSwitch_contract (fun _ => Some 2) "2" Sample.pool3).
  exact reachable_sample.
Defined.

(** X23: triggers coalesce. However many times [TriggerRefresh] is
    called before the loop in [main] gets to the channel, the loop
    receives one signal, and a second receive finds the channel empty. *)
Theorem triggers_coalesce (n buffered : nat) :
  (1 <= n)%nat -> (buffered <= refreshChan_cap)%nat ->
  signal_run (repeat SigTrigger n ++ [SigTake]) buffered 0 = Some (0%nat, 1%nat) /\
  signal_run (repeat SigTrigger n ++ [SigTake; SigTake]) buffered 0 = None.
Proof.
  intros Hn Hb. unfold refreshChan_cap in Hb.
  assert (Hrun : forall evs k, (1 <= k)%nat -> forall b, (b <= 1)%nat ->
            signal_run (repeat SigTrigger k ++ evs) b 0 = signal_run evs 1 0).
  { intros evs k. induction k as [|k IH]; intros Hk b Hb'; [lia|].
    cbn [repeat app signal_run].
    assert (Ht : TriggerRefresh b = 1%nat)
      by (unfold TriggerRefresh, refreshChan_cap;
          destruct b as [|[|b]]; [reflexivity | reflexivity | lia]).
    rewrite Ht. destruct k as [|k]; [reflexivity|]. apply IH; lia. }
  split; rewrite Hrun by assumption; reflexivity.
Qed.

Lemma triggers_coalesce_witness :
  signal_run (repeat SigTrigger 5 ++ [SigTake]) 1 0 = Some (0%nat, 1%nat) /\
  signal_run (repeat SigTrigger 5 ++ [SigTake; SigTake]) 1 0 = None.
Proof. apply (triggers_coalesce 5 1); unfold refreshChan_cap; lia. Defined.

End StatusContracts.

(* ===================================================================== *)
(** ** The refresh cycle and the rotation loop, end to end *)
(* ===================================================================== *)

Section OrchestratorContracts.
Import Pool Checker Orchestrator.

(** X24: a refresh cycle that gets a page and whose checks return
    replaces the pool, whatever it held, by the candidates that passed
    (each a scraped candidate with its IP and port, from a country that
    is not blocked, with a successful probe), resets the active index
    to 0, sets the last scrape time to now and the next to now plus the
    interval, and makes exactly one call on the pool, an [Update]. *)
Theorem refreshPool_installs_checked (cfg : Config) (cy : Cycle) (st st' : System)
  (cands : list Proxy) :
  Scraper.Scrape (http cy) = Some cands ->
  refreshPool cfg cy st = Some (Ok st') ->
  All (pool st') ≡ₚ passing_in_order (check_net cy) cands /\
  (forall px, px ∈ All (pool st') ->
     exists i c, cands !! i = Some c /\ IP px = IP c /\ Port px = Port c /\
                 is_blocked (check_net cy) i = false /\
                 checkGoogle (probe_net (check_net cy) i) = true) /\
  CurrentIndex (pool st') = 0 /\
  lastScrapeTime (timing st') = now cy /\
  nextScrapeTime (timing st') = now cy + ScrapeInterval cfg /\
  pool_log st' = pool_log st ++ [OpUpdate (All (pool st'))].
Proof.
  intros Hs Hr. unfold refreshPool in Hr. rewrite Hs in Hr.
  destruct (CheckProxies (check_net cy) cands (MaxConcurrent cfg) (check_sched cy))
    as [[alive|]|] eqn:Hc; try discriminate.
  inversion Hr; subst; clear Hr. cbn.
  apply returned_content in Hc.
  split; [exact Hc|]. split; [|auto].
  intros px Hin. rewrite Hc in Hin. unfold passing_in_order in Hin.
  apply list_elem_of_omap in Hin as ([i p] & Hip & Hv).
  apply elem_of_lookup_imap in Hip as (j & q & Heq & Hl).
  inversion Heq; subst. simpl in Hv.
  apply verify_Some in Hv as (H1 & H2 & _ & _ & H3 & H4).
  exists j, q. auto.
Qed.

Lemma refreshPool_installs_checked_witness :
  All (pool (mkSystem (mkPool [mkProxy "10.0.0.1" "1080" "Germany" "Berlin";
                               mkProxy "10.0.0.3" "0" "Unknown" ""] 0)
                      (mkTiming 2000 (2000 + 30 * Minute))
                      [OpUpdate [mkProxy "10.0.0.1" "1080" "Germany" "Berlin";
                                 mkProxy "10.0.0.3" "0" "Unknown" ""]]))
    ≡ₚ passing_in_order (check_net Sample.cycle_200)
         [mkProxy "10.0.0.1" "1080" "" ""; mkProxy "10.0.0.2" "70000" "" "";
          mkProxy "10.0.0.3" "0" "" ""] /\
  (forall px,
     px ∈ All (pool (mkSystem (mkPool [mkProxy "10.0.0.1" "1080" "Germany" "Berlin";
                                       mkProxy "10.0.0.3" "0" "Unknown" ""] 0)
                              (mkTiming 2000 (2000 + 30 * Minute))
                              [OpUpdate [mkProxy "10.0.0.1" "1080" "Germany" "Berlin";
                                         mkProxy "10.0.0.3" "0" "Unknown" ""]])) ->
     exists i c,
       [mkProxy "10.0.0.1" "1080" "" ""; mkProxy "10.0.0.2" "70000" "" "";
        mkProxy "10.0.0.3" "0" "" ""] !! i = Some c /\
       IP px = IP c /\ Port px = Port c /\
       is_blocked (check_net Sample.cycle_200) i = false /\
       checkGoogle (probe_net (check_net Sample.cycle_200) i) = true) /\
  CurrentIndex (pool (mkSystem (mkPool [mkProxy "10.0.0.1" "1080" "Germany" "Berlin";
                                        mkProxy "10.0.0.3" "0" "Unknown" ""] 0)
                               (mkTiming 2000 (2000 + 30 * Minute))
                               [OpUpdate [mkProxy "10.0.0.1" "1080" "Germany" "Berlin";
                                          mkProxy "10.0.0.3" "0" "Unknown" ""]])) = 0 /\
  lastScrapeTime (timing (mkSystem (mkPool [mkProxy "10.0.0.1" "1080" "Germany" "Berlin";
                                            mkProxy "10.0.0.3" "0" "Unknown" ""] 0)
                                   (mkTiming 2000 (2000 + 30 * Minute))
                                   [OpUpdate [mkProxy "10.0.0.1" "1080" "Germany" "Berlin";
                                              mkProxy "10.0.0.3" "0" "Unknown" ""]]))
    = now Sample.cycle_200 /\
  nextScrapeTime (timing (mkSystem (mkPool [mkProxy "10.0.0.1" "1080" "Germany" "Berlin";
                                            mkProxy "10.0.0.3" "0" "Unknown" ""] 0)
                                   (mkTiming 2000 (2000 + 30 * Minute))
                                   [OpUpdate [mkProxy "10.0.0.1" "1080" "Germany" "Berlin";
                                              mkProxy "10.0.0.3" "0" "Unknown" ""]]))
    = now Sample.cycle_200 + ScrapeInterval Sample.cfg_default /\
  pool_log (mkSystem (mkPool [mkProxy "10.0.0.1" "1080" "Germany" "Berlin";
                              mkProxy "10.0.0.3" "0" "Unknown" ""] 0)
                     (mkTiming 2000 (2000 + 30 * Minute))
                     [OpUpdate [mkProxy "10.0.0.1" "1080" "Germany" "Berlin";
                                mkProxy "10.0.0.3" "0" "Unknown" ""]])
    = pool_log Sample.system3 ++
      [OpUpdate (All (pool (mkSystem (mkPool [mkProxy "10.0.0.1" "1080" "Germany" "Berlin";
                                              mkProxy "10.0.0.3" "0" "Unknown" ""] 0)
                                     (mkTiming 2000 (2000 + 30 * Minute))
                                     [OpUpdate [mkProxy "10.0.0.1" "1080" "Germany" "Berlin";
                                                mkProxy "10.0.0.3" "0" "Unknown" ""]])))].
Proof.
  apply (refreshPool_installs_checked Sample.cfg_default Sample.cycle_200 Sample.system3).
  - vm_compute. reflexivity.
  - vm_compute. reflexivity.
Defined.

(** The rotation loop when no other goroutine touches the pool. *)
Lemma rotation_quiet_spec (turns : list Turn) : forall p : ProxyPool,
  pool_inv p ->
  Forall (fun t => during_sleep t = [] /\ before_switch t = []) turns ->
  exists log p',
    rotation_loop turns p = Ok (log, p') /\
    proxies p' = proxies p /\
    Forall (fun r => size_seen r = Size p /\ switched r = (1 <? Size p)) log /\
    (Size p <= 1 -> p' = p) /\
    (1 < Size p ->
       CurrentIndex p' = (CurrentIndex p + Z.of_nat (length turns)) mod Size p).
Proof.
  induction turns as [|t turns IH]; intros p Hinv Hq.
  - exists [], p. split; [reflexivity|]. split; [reflexivity|].
    split; [constructor|]. split; [reflexivity|].
    intros Hn. destruct Hinv as [_ Hc]. unfold CurrentIndex. cbn [length].
    rewrite Z.add_0_r. symmetry. apply Z.mod_small. apply Hc. lia.
  - inversion Hq as [|? ? [Hs Hb] Hrest]; subst.
    cbn [rotation_loop]. unfold rotate_once. rewrite Hs, Hb.
    cbn [run_ops mbind Res_bind].
    destruct (Z.ltb_spec 1 (Size p)) as [Hn|Hn].
    + destruct (SwitchNext_step p Hinv ltac:(lia)) as (px & -> & _).
      cbn [mbind Res_bind snd fst].
      set (p1 := mkPool (proxies p) ((current p + 1) mod Size p)).
      assert (Hsz : Size p1 = Size p) by reflexivity.
      assert (Hinv1 : pool_inv p1).
      { split; [exact (proj1 Hinv)|]. intros _. rewrite Hsz. cbn [current p1].
        apply Z.mod_pos_bound. lia. }
      destruct (IH p1 Hinv1 Hrest) as (log & p' & -> & Hp & Hall & _ & Hidx).
      cbn [mbind Res_bind snd fst].
      eexists _, _. split; [reflexivity|]. split; [exact Hp|].
      rewrite Hsz in *. split.
      * assert (Hlt : (1 <? Size p) = true) by (apply Z.ltb_lt; exact Hn).
        rewrite Hlt in Hall. constructor; [|exact Hall]. cbn.
        split; reflexivity.
      * split; [lia|]. intros _. rewrite (Hidx Hn). unfold CurrentIndex.
        cbn [current p1 length]. rewrite Zplus_mod_idemp_l. f_equal. lia.
    + cbn [mbind Res_bind snd fst].
      destruct (IH p Hinv Hrest) as (log & p' & -> & Hp & Hall & Hsame & _).
      cbn [mbind Res_bind snd fst].
      eexists _, _. split; [reflexivity|]. split; [exact Hp|]. split.
      * assert (Hge : (1 <? Size p) = false) by (apply Z.ltb_ge; exact Hn).
        rewrite Hge in Hall. constructor; [|exact Hall]. cbn.
        split; reflexivity.
      * split; [exact Hsame | lia].
Qed.

(** X25: while no other goroutine touches the pool, the rotation loop
    never changes the proxy sequence; with at most one proxy it leaves
    the pool alone, and with more it calls [SwitchNext] in every turn,
    so that after [n] turns the active index is [n] steps further round
    the ring. *)
Theorem rotation_on_quiet_pool (p : ProxyPool) (turns : list Turn) :
  reachable p ->
  Forall (fun t => during_sleep t = [] /\ before_switch t = []) turns ->
  exists log p',
    rotation_loop turns p = Ok (log, p') /\
    proxies p' = proxies p /\
    Forall (fun r => size_seen r = Size p /\ switched r = (1 <? Size p)) log /\
    (Size p <= 1 -> p' = p) /\
    (1 < Size p ->
       CurrentIndex p' = (CurrentIndex p + Z.of_nat (length turns)) mod Size p).
Proof.
  intros Hr Hq. apply rotation_quiet_spec; [|exact Hq].
  apply reachable_inv. exact Hr.
Qed.

Lemma rotation_on_quiet_pool_witness :
  exists log p',
    rotation_loop Sample.turns_quiet Sample.pool3 = Ok (log, p') /\
    proxies p' = proxies Sample.pool3 /\
    Forall (fun r => size_seen r = Size Sample.pool3 /\
                     switched r = (1 <? Size Sample.pool3)) log /\
    (Size Sample.pool3 <= 1 -> p' = Sample.pool3) /\
    (1 < Size Sample.pool3 ->
       CurrentIndex p' =
       (CurrentIndex Sample.pool3 + Z.of_nat (length Sample.turns_quiet))
         mod Size Sample.pool3).
Proof.
  apply (rotation_on_quiet_pool Sample.pool3 Sample.turns_quiet).
  - exact reachable_sample.
  - unfold Sample.turns_quiet.
    repeat (apply List.Forall_cons; [split; reflexivity|]).
    apply List.Forall_nil.
Defined.

End OrchestratorContracts.
